(** * VoiceBridge backend: the conversational pipeline of [core/utils.py]
    and [core/views.py], embedded in Rocq.

    Strings are [String.string] over ASCII; Python's [str.strip] and
    [str.lower] are modelled on the ASCII range, where Python's
    [str.isspace] holds for the code points 9-13 and 28-32. *)

From Stdlib Require Import String Ascii List Bool Arith Lia.
From Stdlib Require Import Sorting.Sorted Sorting.Permutation.
Import ListNotations.
Open Scope string_scope.

(** ** Python string primitives *)

Definition is_py_space (c : ascii) : bool :=
  let n := nat_of_ascii c in
  ((9 <=? n)%nat && (n <=? 13)%nat) || ((28 <=? n)%nat && (n <=? 32)%nat).

Fixpoint lstrip (s : string) : string :=
  match s with
  | EmptyString => EmptyString
  | String c s' => if is_py_space c then lstrip s' else s
  end.

Fixpoint rstrip (s : string) : string :=
  match s with
  | EmptyString => EmptyString
  | String c s' =>
      let r := rstrip s' in
      if is_py_space c && (r =? "") then EmptyString else String c r
  end.

(** [s.strip()] *)
Definition strip (s : string) : string := rstrip (lstrip s).

Definition lower_char (c : ascii) : ascii :=
  let n := nat_of_ascii c in
  if (65 <=? n)%nat && (n <=? 90)%nat then ascii_of_nat (n + 32) else c.

(** [s.lower()] *)
Fixpoint lower (s : string) : string :=
  match s with
  | EmptyString => EmptyString
  | String c s' => String (lower_char c) (lower s')
  end.

(** [sep in s] *)
Fixpoint str_in (sep s : string) : bool :=
  prefix sep s ||
  match s with
  | EmptyString => false
  | String _ s' => str_in sep s'
  end.

Fixpoint str_drop (n : nat) (s : string) : string :=
  match n, s with
  | 0, _ => s
  | S n', String _ s' => str_drop n' s'
  | S _, EmptyString => EmptyString
  end.

(** [s.rsplit(sep, 1)] for a non-empty [sep]: the split happens at the
    rightmost occurrence; without an occurrence the result is [[s]]. *)
Fixpoint rsplit1 (sep s : string) : list string :=
  match s with
  | EmptyString => [EmptyString]
  | String c s' =>
      match rsplit1 sep s' with
      | [b; a] => [String c b; a]
      | _ => if prefix sep s then [EmptyString; str_drop (String.length sep) s]
             else [s]
      end
  end.

(** Python truthiness of an optional string ([None] and [""] are falsy). *)
Definition truthy (o : option string) : option string :=
  match o with
  | Some s => if s =? "" then None else Some s
  | None => None
  end.

(** ** Marker parsing of [safe_gemini_conversational_audio_or_text]
    (utils.py, lines 238-259) *)

Definition lang_code_prefix : string := "Language Code:".

Definition supported_codes : list string := ["yo"; "ig"; "ha"; "en"].

(** [detected_lang = code_raw if code_raw in [...] else "en"] *)
Definition select_code (code_raw : string) : string :=
  if existsb (String.eqb code_raw) supported_codes then code_raw else "en".

(** Lines 238-253: [full] is the already stripped backend text.  The
    indexing [parts[1]] cannot fail in the marker branch; [nth] with a
    default stands for it. *)
Definition parse_gemini_response (full : string) : string * string :=
  if str_in lang_code_prefix full then
    let parts := rsplit1 lang_code_prefix full in
    let conversational_response := strip (nth 0 parts "") in
    let code_raw := lower (strip (nth 1 parts "")) in
    (conversational_response, select_code code_raw)
  else (full, "en").

(** Lines 234-259 after the backend call: strip the raw text, parse it,
    and refuse an empty reply. *)
Definition gemini_result_of_raw (raw : string) : option string * string :=
  let full := strip raw in
  let (conversational_response, detected_lang) := parse_gemini_response full in
  match truthy (Some conversational_response) with
  | None => (None, "en")
  | Some r => (Some r, detected_lang)
  end.

(** ** Effects: a state and exception monad

    Python exceptions that the code can meet are the constructors of
    [exn]; every [except Exception] of the source catches all of them.
    The state holds the temporary files on disk, the trace of calls made
    to the collaborators the claims talk about, the interaction log table
    and a counter that stands for [uuid4] and [tempfile] name generation. *)

Definition bytes := list Byte.byte.

Inductive exn :=
| ImportError          (* ModuleNotFoundError of an [import] *)
| TimeoutExpired       (* subprocess.TimeoutExpired *)
| HTTPError            (* requests' raise_for_status, network errors *)
| IndexError
| AttributeError
| OSError
| BackendError         (* any error raised inside a client library *)
| IntegrityError       (* django.db.IntegrityError *)
| RequestParseError.   (* MultiPartParserError, TooManyFieldsSent or
                          RequestDataTooBig, raised by [request.POST] *)

Inductive result (A : Type) : Type :=
| Ok (a : A)
| Raise (e : exn).
Arguments Ok {A} a.
Arguments Raise {A} e.

(** A temporary file name: directory and name prefix, the random part
    (drawn from the counter) and the extension. *)
Record path := mk_path { p_stem : string; p_id : nat; p_ext : string }.

Definition path_eqb (p q : path) : bool :=
  (p_stem p =? p_stem q) && Nat.eqb (p_id p) (p_id q) && (p_ext p =? p_ext q).

(** [path.replace(".<ext>", ".<ext'>")] on the names the code builds. *)
Definition with_ext (p : path) (e : string) : path :=
  mk_path (p_stem p) (p_id p) e.

Inductive event :=
| Ev_engine_call                      (* safe_gemini_conversational_audio_or_text *)
| Ev_normalize (fmt : option string)  (* normalize_audio *)
| Ev_ffmpeg (i : nat)                 (* the i-th FFmpeg command *)
| Ev_send_text (to body : string)     (* send_whatsapp_message *)
| Ev_send_audio (to url caption : string). (* send_whatsapp_audio *)

(** A row of [QueryHistory] (the timestamp is set by the database). *)
Record log_entry := mk_log_entry {
  le_user : string; le_query : string; le_response : string;
  le_category : string; le_language : string }.

Record world := mk_world {
  files : list (path * bytes);
  trace : list event;
  db : list log_entry;
  next_id : nat }.

Definition M (A : Type) : Type := world -> result A * world.

Definition ret {A} (a : A) : M A := fun w => (Ok a, w).

Definition bind {A B} (m : M A) (k : A -> M B) : M B :=
  fun w => match m w with
           | (Ok a, w') => k a w'
           | (Raise e, w') => (Raise e, w')
           end.

Definition raise {A} (e : exn) : M A := fun w => (Raise e, w).

(** [try: body except Exception as e: handler(e)] *)
Definition try_except {A} (body : M A) (handler : exn -> M A) : M A :=
  fun w => match body w with
           | (Ok a, w') => (Ok a, w')
           | (Raise e, w') => handler e w'
           end.

Definition lift {A} (r : result A) : M A := fun w => (r, w).

Declare Scope py_scope.
Delimit Scope py_scope with py.
Notation "x <- c1 ;; c2" := (bind c1 (fun x => c2))
  (at level 61, c1 at next level, right associativity) : py_scope.
Notation "' p <- c1 ;; c2" := (bind c1 (fun x => match x with p => c2 end))
  (at level 61, p pattern, c1 at next level, right associativity) : py_scope.
Notation "c1 ;; c2" := (bind c1 (fun _ => c2))
  (at level 61, right associativity) : py_scope.
Open Scope py_scope.

(** [try: body except: pass] *)
Definition silent {A} (body : M A) : M unit :=
  try_except (_ <- body ;; ret tt) (fun _ => ret tt).

Definition log (e : event) : M unit :=
  fun w => (Ok tt, mk_world (files w) (e :: trace w) (db w) (next_id w)).

Definition fresh_id : M nat :=
  fun w => (Ok (next_id w), mk_world (files w) (trace w) (db w) (S (next_id w))).

Definition remove_path (p : path) (fs : list (path * bytes)) :=
  filter (fun e => negb (path_eqb (fst e) p)) fs.

(** [open(p, "wb").write(data)] *)
Definition write_file (p : path) (data : bytes) : M unit :=
  fun w => (Ok tt, mk_world ((p, data) :: remove_path p (files w)) (trace w) (db w) (next_id w)).

Definition lookup_file (p : path) (fs : list (path * bytes)) : option bytes :=
  match find (fun e => path_eqb (fst e) p) fs with
  | Some (_, d) => Some d
  | None => None
  end.

(** [open(p, "rb").read()] *)
Definition read_file (p : path) : M bytes :=
  fun w => match lookup_file p (files w) with
           | Some d => (Ok d, w)
           | None => (Raise OSError, w)
           end.

(** [os.path.exists(p)] *)
Definition file_exists (p : path) : M bool :=
  fun w => (Ok (match lookup_file p (files w) with Some _ => true | None => false end), w).

(** [os.path.exists(p) and os.path.getsize(p) > 0] *)
Definition file_nonempty (p : path) : M bool :=
  fun w => (Ok (match lookup_file p (files w) with
                | Some (_ :: _) => true
                | _ => false
                end), w).

(** [os.unlink(p)] *)
Definition unlink (p : path) : M unit :=
  fun w => match lookup_file p (files w) with
           | Some _ => (Ok tt, mk_world (remove_path p (files w)) (trace w) (db w) (next_id w))
           | None => (Raise OSError, w)
           end.

(** [QueryHistory.objects.create(...)] *)
Definition db_insert (e : log_entry) : M unit :=
  fun w => (Ok tt, mk_world (files w) (trace w) ((db w ++ [e])%list) (next_id w)).

Definition truthy_bytes (o : option bytes) : option bytes :=
  match o with
  | Some ((_ :: _) as b) => Some b
  | _ => None
  end.

(** ** The collaborators

    Each external library call the code makes is an oracle that either
    returns or raises.  JSON bodies are records whose optional fields are
    the keys the code reads with [.get]. *)

Record gen_part_json := mk_part { gp_text : option string }.
Record gen_content_json := mk_content { gc_parts : option (list gen_part_json) }.
Record gen_candidate_json := mk_candidate { gcand_content : option gen_content_json }.
Record gen_response_json := mk_gen_response { gr_candidates : option (list gen_candidate_json) }.

(** A part of a [generate_content] prompt. *)
Inductive prompt_part :=
| PText (s : string)
| PAudio (mime_type : string) (data : bytes).

(** The system instruction [ask_gemini] sends (lines 88-115). *)
Inductive ask_instruction :=
| DetectLanguage
| ReplyIn (language : string).

(** The response of the Cloudinary upload: its status code and the outcome
    of [response.json().get("secure_url")]. *)
Record cloud_response := mk_cloud_response {
  cr_status : nat; cr_secure_url : result (option string) }.

Record Ext := mk_ext {
  gemini_api_key_set : bool;       (* GEMINI_API_KEY is truthy *)
  genai_installed : bool;          (* genai is not None *)
  (* requests.post(url, json=body), raise_for_status(), json() *)
  gemini_rest : ask_instruction -> string -> result gen_response_json;
  (* GenerativeModel('gemini-2.0-flash').generate_content(parts).text *)
  gemini_generate : list prompt_part -> result string;
  (* AudioSegment.from_file(...).set_channels(1).set_frame_rate(16000),
     exported as wav *)
  pydub_to_wav : bytes -> option string -> result bytes;
  (* SPITCH_CLIENT.speech.generate(text, language, voice); the inner
     result is the outcome of response.read() *)
  spitch_generate : string -> string -> string -> result (result bytes);
  (* the same call with [language=None] *)
  spitch_generate_nolang : string -> string -> result (result bytes);
  (* AudioSegment.from_wav(...).export(..., format="mp3") *)
  wav_to_mp3 : bytes -> result bytes;
  cloudinary_creds_set : bool;     (* the three CLOUDINARY_* variables *)
  cloudinary_post : bytes -> result cloud_response;
  twilio_creds_set : bool;         (* TWILIO_SID and TWILIO_AUTH_TOKEN *)
  twilio_number : option string;   (* TWILIO_WHATSAPP_NUMBER *)
  (* twilio_client.messages.create(from_, to, body, media_url) *)
  twilio_create : string -> string -> string -> option string -> result string;
  (* requests.get(recording_url).content *)
  recording_get : string -> result bytes;
  (* requests.get(media_url, auth=..., timeout=30), raise_for_status(),
     .content *)
  twilio_media_get : string -> result bytes;
  (* subprocess.run of the i-th FFmpeg command on the input file's
     content: its return code and the output file it writes, if any *)
  ffmpeg_run : nat -> bytes -> result (nat * option bytes);
  (* input_file.write(audio_bytes) on the NamedTemporaryFile of
     process_whatsapp_audio (line 388), e.g. OSError on a full disk *)
  tmp_write : bytes -> result unit }.

(** ** Responses *)

(** The TwiML documents the two webhooks return. *)
Inductive twiml :=
| TwSayRecord (say : string)       (* <Say> then <Record action=... /> *)
| TwSay (say : string)             (* <Say voice="alice"> *)
| TwPlay (url : string)            (* <Play> *)
| TwMessaging.                     (* str(MessagingResponse()) *)

Record http_response := mk_http_response {
  resp_twiml : twiml; resp_content_type : string }.

Definition xml (t : twiml) : http_response := mk_http_response t "text/xml".

Definition wa_ack : http_response := xml TwMessaging.

Inductive rest_body :=
| RestError (error : string)
| RestAnswer (query response : string) (audio_url : option string).

Record rest_response := mk_rest_response {
  rs_status : nat; rs_body : rest_body }.

(** Early [return] inside nested [try] blocks of the WhatsApp handler. *)
Inductive flow (A : Type) :=
| Done (r : http_response)
| Cont (a : A).
Arguments Done {A} r.
Arguments Cont {A} a.

Definition default {A} (d : A) (o : option A) : A :=
  match o with Some a => a | None => d end.

(** ** Message texts *)

Definition gemini_unavailable := "I'm sorry, Gemini is not available.".
Definition ask_not_configured :=
  "I'm sorry, Gemini is not configured. Please set GEMINI_API_KEY.".
Definition ask_not_installed :=
  "I'm sorry, the Google Generative AI library is not installed.".
Definition ask_failed := "I'm sorry, I couldn't understand your request.".

Definition base_instructions :=
  "Please analyze the provided input. First, identify the language used. " ++
  "Then, respond naturally and conversationally to the content in the *exact same language* you detected. " ++
  "Finally, append a language code at the very end of your response, formatted as 'Language Code: [code]'. " ++
  "Use these specific codes: 'yo' for Yoruba, 'ig' for Igbo, 'ha' for Hausa, 'en' for English. " ++
  "If the language is not Yoruba, Igbo, Hausa, or English, default the language code to 'en'. " ++
  "Your conversational response should precede the language code. " ++
  "You're a friendly multilingual Health, Education, Finance and Entertainment and AI assistant generally named VoiceBridge who explains things clearly, simply, and respectfully. " ++
  "Always answer like you're speaking directly to the person, not writing a formal essay. Don't try to format text in anyway (use of double asterisk before and after words to make them bold, em dashes), just return plain text".

Definition ivr_welcome := "Welcome to VoiceBridge. Please speak after the beep.".
Definition ivr_couldnt_hear := "Sorry, we couldn't hear you. Please try again.".
Definition ivr_trouble := "Sorry, I'm having trouble responding right now.".
Definition ivr_went_wrong := "Sorry, something went wrong. Please try again later.".

Definition wa_couldnt_access :=
  "Sorry, I couldn't access your audio message. Can you try again?".
Definition wa_couldnt_download :=
  "Sorry, I couldn't download your audio message. Can you try again?".
Definition wa_bad_format :=
  "I couldn't process your audio format. Could you try sending a text message instead?".
Definition wa_trouble_audio :=
  "I had trouble understanding your audio. Could you try sending a text message instead?".
Definition wa_nothing_understood :=
  "I couldn't understand anything in your audio message. Could you try speaking more clearly or send a text?".
Definition wa_unexpected_audio :=
  "There was an unexpected error with your audio message. Please try a shorter message or use text.".
Definition wa_rephrase :=
  "Sorry, I couldn't understand your text message. Can you rephrase?".
Definition wa_no_input :=
  "I didn't receive any message. Please send an audio or text message.".
Definition wa_no_response :=
  "I'm sorry, I couldn't generate a response at this time. Please try again.".
Definition wa_send_failed :=
  "An unexpected error occurred while trying to send my response. Please try again later.".

(** ** [core/utils.py] *)

Section Pipeline.
Variable X : Ext.

(** [upload_to_cloudinary(file_obj)] for a path (lines 38-77).  The
    timestamp and SHA-1 signature are pure and go into the request the
    oracle answers.  The file is opened before the [try]. *)
Definition upload_to_cloudinary (p : path) : M (option string) :=
  if negb (cloudinary_creds_set X) then ret None else
  data <- read_file p ;;
  try_except
    (r <- lift (cloudinary_post X data) ;;
     if Nat.eqb (cr_status r) 200 then lift (cr_secure_url r) else ret None)
    (fun _ => ret None).

(** The reply text of [response.json()] (line 129):
    [.get("candidates", [{}])[0].get("content", {}).get("parts", [{}])[0].get("text", "")]. *)
Definition extract_text (r : gen_response_json) : result string :=
  match default [mk_candidate None] (gr_candidates r) with
  | [] => Raise IndexError
  | c :: _ =>
      match default [mk_part None] (gc_parts (default (mk_content None) (gcand_content c))) with
      | [] => Raise IndexError
      | p :: _ => Ok (default "" (gp_text p))
      end
  end.

Definition language_name (lang : string) : string :=
  if lang =? "yo" then "yoruba"
  else if lang =? "ig" then "igbo"
  else if lang =? "ha" then "hausa"
  else "english".

(** [ask_gemini(prompt, lang)] (lines 79-132). *)
Definition ask_gemini (prompt lang : string) : M string :=
  if negb (gemini_api_key_set X) then ret ask_not_configured else
  if negb (genai_installed X) then ret ask_not_installed else
  let instr := if lang =? "undefined" then DetectLanguage
               else ReplyIn (language_name lang) in
  try_except
    (resp <- lift (gemini_rest X instr prompt) ;; lift (extract_text resp))
    (fun _ => ret ask_failed).

(** [normalize_audio(audio_bytes, input_format)] (lines 135-144). *)
Definition normalize_audio (audio_bytes : bytes) (input_format : option string)
  : M (option bytes) :=
  log (Ev_normalize input_format) ;;
  try_except
    (wav <- lift (pydub_to_wav X audio_bytes input_format) ;; ret (Some wav))
    (fun _ => ret None).

Definition voice_map (language : string) : string :=
  if language =? "en" then "lucy"
  else if language =? "yo" then "sade"
  else if language =? "ig" then "ngozi"
  else if language =? "ha" then "amina"
  else "lucy".

(** [safe_tts(text, language, prefix)] (lines 146-173).  The wav file is
    created by [open(wav_path, "wb")] before [response.read()] runs.
    [wav_to_mp3] stands for [AudioSegment.from_wav(...).export(...)]; when
    the export step itself fails, the mp3 file it has opened stays behind,
    empty, and is not tracked here. *)
Definition safe_tts (text language prefix : string) : M (option string) :=
  try_except
    (let voice_id := voice_map language in
     response <- lift (spitch_generate X text language voice_id) ;;
     id <- fresh_id ;;
     let wav_path := mk_path ("/tmp/" ++ prefix ++ "_") id "wav" in
     write_file wav_path [] ;;
     content <- lift response ;;
     write_file wav_path content ;;
     let mp3_path := with_ext wav_path "mp3" in
     wav <- read_file wav_path ;;
     mp3 <- lift (wav_to_mp3 X wav) ;;
     write_file mp3_path mp3 ;;
     upload_to_cloudinary mp3_path)
    (fun _ => ret None).

(** [safe_tts(text, None, prefix)]: the same body when [language] is
    [None]; [voice_map.get(None, "lucy")] is ["lucy"] and the client is
    called with [language=None]. *)
Definition safe_tts_nolang (text prefix : string) : M (option string) :=
  try_except
    (response <- lift (spitch_generate_nolang X text "lucy") ;;
     id <- fresh_id ;;
     let wav_path := mk_path ("/tmp/" ++ prefix ++ "_") id "wav" in
     write_file wav_path [] ;;
     content <- lift response ;;
     write_file wav_path content ;;
     let mp3_path := with_ext wav_path "mp3" in
     wav <- read_file wav_path ;;
     mp3 <- lift (wav_to_mp3 X wav) ;;
     write_file mp3_path mp3 ;;
     upload_to_cloudinary mp3_path)
    (fun _ => ret None).

(** The model call and marker parsing of lines 234-259. *)
Definition gemini_call (prompt_parts : list prompt_part) : M (option string * string) :=
  raw <- lift (gemini_generate X prompt_parts) ;;
  ret (gemini_result_of_raw raw).

(** [safe_gemini_conversational_audio_or_text(audio_bytes, input_format,
    text_input)] (lines 193-263). *)
Definition safe_gemini_conversational_audio_or_text
  (audio_bytes : option bytes) (input_format : option string)
  (text_input : option string) : M (option string * string) :=
  log Ev_engine_call ;;
  if negb (gemini_api_key_set X && genai_installed X)
  then ret (Some gemini_unavailable, "en") else
  try_except
    (match truthy text_input with
     | Some t => gemini_call [PText t; PText base_instructions]
     | None =>
         match truthy_bytes audio_bytes with
         | Some a =>
             usable_audio_wav <- normalize_audio a input_format ;;
             match truthy_bytes usable_audio_wav with
             | None => ret (None, "en")
             | Some wav => gemini_call [PAudio "audio/wav" wav; PText base_instructions]
             end
         | None => ret (None, "en")
         end
     end)
    (fun _ => ret (None, "en")).

(** [f'whatsapp:{n}'] unless already prefixed. *)
Definition wa_addr (n : string) : string :=
  if prefix "whatsapp:" n then n else "whatsapp:" ++ n.

(** [send_whatsapp_message(to_number, text_message)] (lines 294-320);
    the call is recorded in the trace. *)
Definition send_whatsapp_message (to_number text_message : string) : M (option string) :=
  log (Ev_send_text to_number text_message) ;;
  if negb (twilio_creds_set X) then ret None else
  try_except
    (from_whatsapp <- match twilio_number X with
                      | Some n => ret (wa_addr n)
                      | None => raise AttributeError   (* None.startswith *)
                      end ;;
     sid <- lift (twilio_create X from_whatsapp (wa_addr to_number) text_message None) ;;
     ret (Some sid))
    (fun _ => ret None).

(** [send_whatsapp_audio(to_number, media_url, text)] (lines 265-292). *)
Definition send_whatsapp_audio (to_number media_url text : string) : M (option string) :=
  log (Ev_send_audio to_number media_url text) ;;
  if negb (twilio_creds_set X) then ret None else
  try_except
    (from_whatsapp <- match twilio_number X with
                      | Some n => ret (wa_addr n)
                      | None => raise AttributeError
                      end ;;
     sid <- lift (twilio_create X from_whatsapp (wa_addr to_number) text (Some media_url)) ;;
     ret (Some sid))
    (fun _ => ret None).

(** ** [core/views.py] *)

(** A value of the parsed JSON body: [null] or a string. *)
Inductive json_value := JNull | JStr (s : string).

(** The keys [text], [language] and [category] of [request.data]: absent
    ([None]) or present with a value. *)
Record rest_request := mk_rest_request {
  rq_text : option json_value; rq_language : option json_value;
  rq_category : option json_value }.

(** [request.data.get(key, default)]: the default for an absent key, the
    value for a present one, [None] for a JSON [null]. *)
Definition data_get (v : option json_value) (dflt : option string) : option string :=
  match v with
  | None => dflt
  | Some JNull => None
  | Some (JStr s) => Some s
  end.

(** [QueryHistory.objects.create(...)] (models.py lines 15-21): [category]
    and [language] are [CharField]s without [null=True], so a [None] value
    violates their NOT NULL constraint. *)
Definition query_history_create (user query response : string)
  (category language : option string) : M unit :=
  match category, language with
  | Some c, Some l => db_insert (mk_log_entry user query response c l)
  | _, _ => raise IntegrityError
  end.

(** [AssistantQueryView.post] (lines 116-139).  [ask_gemini] only compares
    [lang] with ['undefined'] and looks it up with [.get(lang, "english")],
    so [None] behaves there as ["en"]; [safe_tts] passes it on to the
    synthesis client, modelled by [safe_tts_nolang].  An exception escapes
    the view, which Django turns into an HTTP 500 response. *)
Definition assistant_query_post (user : string) (req : rest_request) : M rest_response :=
  let query := data_get (rq_text req) None in
  let language := data_get (rq_language req) (Some "en") in
  let category := data_get (rq_category req) (Some "general") in
  match truthy query with
  | None => ret (mk_rest_response 400 (RestError "Missing query text"))
  | Some q =>
      ai_response <- ask_gemini q (default "en" language) ;;
      audio_url <- match language with
                   | Some l => safe_tts ai_response l "assistant"
                   | None => safe_tts_nolang ai_response "assistant"
                   end ;;
      query_history_create user q ai_response category language ;;
      ret (mk_rest_response 200 (RestAnswer q ai_response audio_url))
  end.

(** [IVRHookView.post] (lines 170-211); the argument is the
    [RecordingUrl] form field. *)
Definition ivr_post (recording_url : option string) : M http_response :=
  try_except
    (match truthy recording_url with
     | None => ret (xml (TwSayRecord ivr_welcome))
     | Some url =>
         audio_data <- lift (recording_get X url) ;;
         '(ai_response, lang) <-
           safe_gemini_conversational_audio_or_text (Some audio_data) (Some "wav") None ;;
         match truthy ai_response with
         | None => ret (xml (TwSay ivr_couldnt_hear))
         | Some reply =>
             audio_url <- safe_tts reply lang "ivr" ;;
             match truthy audio_url with
             | None => ret (xml (TwSay ivr_trouble))
             | Some u => ret (xml (TwPlay u))
             end
         end
     end)
    (fun _ => ret (xml (TwSay ivr_went_wrong))).

(** [WhatsAppWebhookView.download_twilio_media] (lines 334-374). *)
Definition download_twilio_media (media_url : string) : M (option bytes) :=
  try_except
    (audio_data <- lift (twilio_media_get X media_url) ;;
     match audio_data with
     | [] => ret None
     | _ => ret (Some audio_data)
     end)
    (fun _ => ret None).

(** One iteration of the FFmpeg loop (lines 415-447), without its
    [except] clauses: the command reads the input file and may write the
    output file. *)
Definition ffmpeg_attempt (i : nat) (input_path output_path : path) : M (option bytes) :=
  log (Ev_ffmpeg i) ;;
  input <- read_file input_path ;;
  '(returncode, out) <- lift (ffmpeg_run X i input) ;;
  match out with
  | Some o => write_file output_path o
  | None => ret tt
  end ;;
  if Nat.eqb returncode 0 then
    ok <- file_nonempty output_path ;;
    if ok then
      wav_data <- read_file output_path ;;
      silent (unlink input_path ;; unlink output_path) ;;
      ret (Some wav_data)
    else ret None
  else ret None.

(** [for i, cmd in enumerate(ffmpeg_commands)] with the per-command
    [except subprocess.TimeoutExpired] / [except Exception]. *)
Fixpoint ffmpeg_attempts (cmds : list nat) (input_path output_path : path)
  : M (option bytes) :=
  match cmds with
  | [] => ret None
  | i :: rest =>
      r <- try_except (ffmpeg_attempt i input_path output_path) (fun _ => ret None) ;;
      match r with
      | Some wav => ret (Some wav)
      | None => ffmpeg_attempts rest input_path output_path
      end
  end.

(** The three commands of [ffmpeg_commands]. *)
Definition ffmpeg_commands : list nat := [0; 1; 2].

(** [WhatsAppWebhookView.process_whatsapp_audio] (lines 376-476).
    [NamedTemporaryFile(delete=False, ...)] creates the input file empty;
    when [input_file.write(audio_bytes)] raises, [input_path] is not yet
    bound, so the [except] block (lines 463-476) finds neither name in
    [locals()], removes nothing and returns [None]; the file stays (with
    whatever part of the audio reached it, which is not tracked here).
    [from your_audio_module import normalize_audio] (line 451) names a
    module that neither this repository nor its dependencies provide: it
    raises [ModuleNotFoundError]. *)
Definition process_whatsapp_audio (audio_bytes : bytes) (input_format : string)
  : M (option bytes) :=
  id <- fresh_id ;;
  let input_path := mk_path "/tmp/tmp" id input_format in
  write_file input_path [] ;;
  match tmp_write X audio_bytes with
  | Raise _ => ret None
  | Ok _ =>
  write_file input_path audio_bytes ;;
  let output_path := with_ext input_path "wav" in
  try_except
    (r <- ffmpeg_attempts ffmpeg_commands input_path output_path ;;
     match r with
     | Some wav_data => ret (Some wav_data)
     | None =>
         (raise ImportError : M unit) ;;
         fallback_result <- normalize_audio audio_bytes (Some input_format) ;;
         silent (unlink input_path ;;
                 e <- file_exists output_path ;;
                 if e then unlink output_path else ret tt) ;;
         ret fallback_result
     end)
    (fun _ =>
       silent (ei <- file_exists input_path ;;
               (if ei then unlink input_path else ret tt) ;;
               eo <- file_exists output_path ;;
               if eo then unlink output_path else ret tt) ;;
       ret None)
  end.

(** The form fields of a WhatsApp webhook call. *)
Record wa_request := mk_wa_request {
  wa_media_content_type : option string;   (* MediaContentType0 *)
  wa_media_url : option string;            (* MediaUrl0 *)
  wa_body : option string;                 (* Body *)
  wa_from : option string }.               (* From *)

(** The audio branch of [WhatsAppWebhookView.post] (lines 229-282). *)
Definition wa_audio_path (user_phone audio_url : string) : M (flow (option string * string)) :=
  try_except
    (d <- try_except
            (audio_data <- download_twilio_media audio_url ;;
             match truthy_bytes audio_data with
             | None =>
                 send_whatsapp_message user_phone wa_couldnt_access ;;
                 ret (Done wa_ack)
             | Some a => ret (Cont a)
             end)
            (fun _ =>
               send_whatsapp_message user_phone wa_couldnt_download ;;
               ret (Done wa_ack)) ;;
     match d with
     | Done r => ret (Done r)
     | Cont audio_data =>
         processed_audio_data <- process_whatsapp_audio audio_data "ogg" ;;
         match truthy_bytes processed_audio_data with
         | None =>
             send_whatsapp_message user_phone wa_bad_format ;;
             ret (Done wa_ack)
         | Some p =>
             g <- try_except
                    (x <- safe_gemini_conversational_audio_or_text (Some p) (Some "wav") None ;;
                     ret (Cont x))
                    (fun _ =>
                       try_except
                         (x <- safe_gemini_conversational_audio_or_text
                                 (Some audio_data) (Some "ogg") None ;;
                          ret (Cont x))
                         (fun _ =>
                            send_whatsapp_message user_phone wa_trouble_audio ;;
                            ret (Done wa_ack))) ;;
             match g with
             | Done r => ret (Done r)
             | Cont (ai_response, lang) =>
                 match truthy ai_response with
                 | None =>
                     send_whatsapp_message user_phone wa_nothing_understood ;;
                     ret (Done wa_ack)
                 | Some _ => ret (Cont (ai_response, lang))
                 end
             end
         end
     end)
    (fun _ =>
       send_whatsapp_message user_phone wa_unexpected_audio ;;
       ret (Done wa_ack)).

(** The delivery block of [WhatsAppWebhookView.post] (lines 297-332). *)
Definition wa_deliver (user_phone : string) (ai_response : option string) (lang : string)
  : M http_response :=
  try_except
    (match truthy ai_response with
     | Some reply =>
         audio_reply_url <- safe_tts reply lang "wa" ;;
         match truthy audio_reply_url with
         | Some u =>
             send_whatsapp_audio user_phone u reply ;;
             send_whatsapp_message user_phone reply ;;
             ret tt
         | None =>
             send_whatsapp_message user_phone reply ;;
             ret tt
         end
     | None =>
         send_whatsapp_message user_phone wa_no_response ;;
         ret tt
     end ;;
     ret wa_ack)
    (fun _ =>
       send_whatsapp_message user_phone wa_send_failed ;;
       ret wa_ack).

(** [WhatsAppWebhookView.post] (lines 216-332). *)
Definition whatsapp_post (req : wa_request) : M http_response :=
  let audio_url :=
    match truthy (wa_media_content_type req) with
    | Some media_type => if prefix "audio" media_type then wa_media_url req else None
    | None => None
    end in
  let user_phone := default "anonymous" (wa_from req) in
  d <- match truthy audio_url with
       | Some url => wa_audio_path user_phone url
       | None =>
           match truthy (wa_body req) with
           | Some body_text =>
               '(ai_response, lang) <-
                 safe_gemini_conversational_audio_or_text None None (Some body_text) ;;
               match truthy ai_response with
               | None =>
                   send_whatsapp_message user_phone wa_rephrase ;;
                   ret (Done wa_ack)
               | Some _ => ret (Cont (ai_response, lang))
               end
           | None =>
               send_whatsapp_message user_phone wa_no_input ;;
               ret (Done wa_ack)
           end
       end ;;
  match d with
  | Done r => ret r
  | Cont (ai_response, lang) => wa_deliver user_phone ai_response lang
  end.



End Pipeline.

(** ** The other views of [core/views.py] and [safe_stt] *)

(** [QueryHistoryList.get_queryset] (lines 82-83):
    [QueryHistory.objects.filter(user=self.request.user)].  The queryset
    has no [order_by] and the model no [Meta.ordering], so the database
    may return the rows in any order; the list below is one of them, and
    statements about it hold up to permutation. *)
Definition query_history_list (user : string) (rows : list log_entry) : list log_entry :=
  filter (fun e => le_user e =? user) rows.

(** A row of [LessonContent] (models.py, lines 27-32); [created_at] is a
    timestamp. *)
Record lesson := mk_lesson {
  ls_title : string; ls_category : string; ls_language : string; ls_body : string;
  ls_created_at : nat }.

(** The query parameters [language], [category] and [search]. *)
Record lesson_params := mk_lesson_params {
  lp_language : option string; lp_category : option string; lp_search : option string }.

(** [order_by('-created_at')]: newest first.  Rows with the same timestamp
    keep their stored order. *)
Fixpoint insert_newest (l : lesson) (qs : list lesson) : list lesson :=
  match qs with
  | [] => [l]
  | m :: qs' => if Nat.leb (ls_created_at m) (ls_created_at l) then l :: qs
                else m :: insert_newest l qs'
  end.

Definition order_by_newest (rows : list lesson) : list lesson :=
  fold_right insert_newest [] rows.

(** [field__icontains=needle], case-insensitive on the ASCII range. *)
Definition icontains (field needle : string) : bool := str_in (lower needle) (lower field).

(** [LessonContentView.get_queryset] (lines 95-111). *)
Definition lesson_queryset (params : lesson_params) (rows : list lesson) : list lesson :=
  let qs := order_by_newest rows in
  let qs := match truthy (lp_language params) with
            | Some lang => if lang =? "all" then qs
                           else filter (fun l => ls_language l =? lang) qs
            | None => qs
            end in
  let qs := match truthy (lp_category params) with
            | Some category => if category =? "all" then qs
                               else filter (fun l => ls_category l =? category) qs
            | None => qs
            end in
  match truthy (lp_search params) with
  | Some search_query =>
      (* [qs.filter(title__icontains=...) | qs.filter(body__icontains=...)] *)
      filter (fun l => icontains (ls_title l) search_query || icontains (ls_body l) search_query) qs
  | None => qs
  end.

(** The Spitch calls of [safe_stt]: [speech.transcribe(language, content)]
    and [text.translate(text, source, target)], each returning the [text]
    of its response or raising. *)
Record Stt := mk_stt {
  spitch_transcribe : string -> bytes -> result string;
  spitch_translate : string -> string -> string -> result string }.

(** The body of [VoiceUploadView.post]'s response. *)
Inductive voice_body :=
| VoiceError (msg : string)
| VoiceAnswer (query response : string) (audio_url uploaded_input_audio_url : option string).

Record voice_response := mk_voice_response { vr_status : nat; vr_body : voice_body }.

Section Voice.
Variable X : Ext.
Variable S : Stt.

(** [safe_stt(audio_bytes, language)] (utils.py, lines 176-191). *)
Definition safe_stt (audio_bytes : bytes) (language : string) : M (option string) :=
  try_except
    (usable_audio <- normalize_audio X audio_bytes (Some "webm") ;;
     match truthy_bytes usable_audio with
     | None => ret None
     | Some a =>
         transcript <- lift (spitch_transcribe S language a) ;;
         if language =? "en" then ret (Some transcript)
         else
           translation <- lift (spitch_translate S transcript language "en") ;;
           ret (Some translation)
     end)
    (fun _ => ret None).

(** [upload_to_cloudinary(file_obj)] for an in-memory file (the [else]
    branch of line 64): nothing is opened before the [try]. *)
Definition upload_to_cloudinary_stream (data : bytes) : M (option string) :=
  if negb (cloudinary_creds_set X) then ret None else
  try_except
    (r <- lift (cloudinary_post X data) ;;
     if Nat.eqb (cr_status r) 200 then lift (cr_secure_url r) else ret None)
    (fun _ => ret None).

(** [VoiceUploadView.post] (views.py, lines 142-165).  [file] is
    [request.FILES.get("file")]; an uploaded file object is truthy. *)
Definition voice_upload_post (file : option bytes) (language : option string)
  : M voice_response :=
  let language := default "en" language in
  match file with
  | None => ret (mk_voice_response 400 (VoiceError "No audio provided"))
  | Some audio_bytes =>
      transcription <- safe_stt audio_bytes language ;;
      match truthy transcription with
      | None => ret (mk_voice_response 500 (VoiceError "STT failed"))
      | Some t =>
          ai_response <- ask_gemini X t language ;;
          audio_url <- safe_tts X ai_response language "voice" ;;
          uploaded_audio_url <- upload_to_cloudinary_stream audio_bytes ;;
          ret (mk_voice_response 200 (VoiceAnswer t ai_response audio_url uploaded_audio_url))
      end
  end.

End Voice.

(** ** Concrete collaborators used by the examples and counterexamples *)

Definition wav_sample : bytes := [Byte.x52; Byte.x49; Byte.x46; Byte.x46].
Definition ogg_sample : bytes := [Byte.x4f; Byte.x67; Byte.x67; Byte.x53].
Definition mp3_sample : bytes := [Byte.x49; Byte.x44; Byte.x33].

(** Every collaborator answers: Gemini replies in Yoruba, Spitch speaks,
    Cloudinary stores, Twilio sends, FFmpeg converts. *)
Definition ext_all_ok : Ext := {|
  gemini_api_key_set := true;
  genai_installed := true;
  gemini_rest := fun _ _ =>
    Ok (mk_gen_response (Some [mk_candidate (Some (mk_content (Some [mk_part (Some "Malaria is a disease.")])))]));
  gemini_generate := fun _ => Ok "Bawo ni. Language Code: yo";
  pydub_to_wav := fun _ _ => Ok wav_sample;
  spitch_generate := fun _ _ _ => Ok (Ok wav_sample);
  spitch_generate_nolang := fun _ _ => Ok (Ok wav_sample);
  wav_to_mp3 := fun _ => Ok mp3_sample;
  cloudinary_creds_set := true;
  cloudinary_post := fun _ => Ok (mk_cloud_response 200 (Ok (Some "https://res.cloudinary.com/a.mp3")));
  twilio_creds_set := true;
  twilio_number := Some "+14155238886";
  twilio_create := fun _ _ _ _ => Ok "SM1";
  recording_get := fun _ => Ok wav_sample;
  twilio_media_get := fun _ => Ok ogg_sample;
  ffmpeg_run := fun _ _ => Ok (0, Some wav_sample);
  tmp_write := fun _ => Ok tt |}.

Definition world0 : world := mk_world [] [] [] 0.

(** As [ext_all_ok], but the Spitch backend fails. *)
Definition ext_tts_down : Ext := {|
  gemini_api_key_set := true;
  genai_installed := true;
  gemini_rest := gemini_rest ext_all_ok;
  gemini_generate := gemini_generate ext_all_ok;
  pydub_to_wav := pydub_to_wav ext_all_ok;
  spitch_generate := fun _ _ _ => Raise BackendError;
  spitch_generate_nolang := spitch_generate_nolang ext_all_ok;
  wav_to_mp3 := wav_to_mp3 ext_all_ok;
  cloudinary_creds_set := true;
  cloudinary_post := cloudinary_post ext_all_ok;
  twilio_creds_set := true;
  twilio_number := twilio_number ext_all_ok;
  twilio_create := twilio_create ext_all_ok;
  recording_get := recording_get ext_all_ok;
  twilio_media_get := twilio_media_get ext_all_ok;
  ffmpeg_run := ffmpeg_run ext_all_ok;
  tmp_write := tmp_write ext_all_ok |}.

(** As [ext_all_ok], but every FFmpeg command exits with status 1 and
    writes nothing, while pydub decodes the voice note. *)
Definition ext_ffmpeg_fails : Ext := {|
  gemini_api_key_set := true;
  genai_installed := true;
  gemini_rest := gemini_rest ext_all_ok;
  gemini_generate := gemini_generate ext_all_ok;
  pydub_to_wav := fun _ _ => Ok wav_sample;
  spitch_generate := spitch_generate ext_all_ok;
  spitch_generate_nolang := spitch_generate_nolang ext_all_ok;
  wav_to_mp3 := wav_to_mp3 ext_all_ok;
  cloudinary_creds_set := true;
  cloudinary_post := cloudinary_post ext_all_ok;
  twilio_creds_set := true;
  twilio_number := twilio_number ext_all_ok;
  twilio_create := twilio_create ext_all_ok;
  recording_get := recording_get ext_all_ok;
  twilio_media_get := twilio_media_get ext_all_ok;
  ffmpeg_run := fun _ _ => Ok (1, None);
  tmp_write := tmp_write ext_all_ok |}.

(** As [ext_all_ok], but the Gemini model call raises. *)
Definition ext_engine_down : Ext := {|
  gemini_api_key_set := true;
  genai_installed := true;
  gemini_rest := gemini_rest ext_all_ok;
  gemini_generate := fun _ => Raise BackendError;
  pydub_to_wav := pydub_to_wav ext_all_ok;
  spitch_generate := spitch_generate ext_all_ok;
  spitch_generate_nolang := spitch_generate_nolang ext_all_ok;
  wav_to_mp3 := wav_to_mp3 ext_all_ok;
  cloudinary_creds_set := true;
  cloudinary_post := cloudinary_post ext_all_ok;
  twilio_creds_set := true;
  twilio_number := twilio_number ext_all_ok;
  twilio_create := twilio_create ext_all_ok;
  recording_get := recording_get ext_all_ok;
  twilio_media_get := twilio_media_get ext_all_ok;
  ffmpeg_run := ffmpeg_run ext_all_ok;
  tmp_write := tmp_write ext_all_ok |}.

(** As [ext_all_ok], but the REST reply's first part has no [text]. *)
Definition ext_empty_part : Ext := {|
  gemini_api_key_set := true;
  genai_installed := true;
  gemini_rest := fun _ _ =>
    Ok (mk_gen_response (Some [mk_candidate (Some (mk_content (Some [mk_part None])))]));
  gemini_generate := gemini_generate ext_all_ok;
  pydub_to_wav := pydub_to_wav ext_all_ok;
  spitch_generate := spitch_generate ext_all_ok;
  spitch_generate_nolang := spitch_generate_nolang ext_all_ok;
  wav_to_mp3 := wav_to_mp3 ext_all_ok;
  cloudinary_creds_set := true;
  cloudinary_post := cloudinary_post ext_all_ok;
  twilio_creds_set := true;
  twilio_number := twilio_number ext_all_ok;
  twilio_create := twilio_create ext_all_ok;
  recording_get := recording_get ext_all_ok;
  twilio_media_get := twilio_media_get ext_all_ok;
  ffmpeg_run := ffmpeg_run ext_all_ok;
  tmp_write := tmp_write ext_all_ok |}.

(** As [ext_all_ok], but [GEMINI_API_KEY] is not set. *)
Definition ext_no_gemini : Ext := {|
  gemini_api_key_set := false;
  genai_installed := true;
  gemini_rest := gemini_rest ext_all_ok;
  gemini_generate := gemini_generate ext_all_ok;
  pydub_to_wav := pydub_to_wav ext_all_ok;
  spitch_generate := spitch_generate ext_all_ok;
  spitch_generate_nolang := spitch_generate_nolang ext_all_ok;
  wav_to_mp3 := wav_to_mp3 ext_all_ok;
  cloudinary_creds_set := true;
  cloudinary_post := cloudinary_post ext_all_ok;
  twilio_creds_set := true;
  twilio_number := twilio_number ext_all_ok;
  twilio_create := twilio_create ext_all_ok;
  recording_get := recording_get ext_all_ok;
  twilio_media_get := twilio_media_get ext_all_ok;
  ffmpeg_run := ffmpeg_run ext_all_ok;
  tmp_write := tmp_write ext_all_ok |}.

(** As [ext_all_ok], but Spitch answers with bytes that are not a wav
    file, and the transcoder only reads data that starts like a RIFF
    header: the transcode fails on this audio only. *)
Definition ext_tts_not_wav : Ext := {|
  gemini_api_key_set := true;
  genai_installed := true;
  gemini_rest := gemini_rest ext_all_ok;
  gemini_generate := gemini_generate ext_all_ok;
  pydub_to_wav := pydub_to_wav ext_all_ok;
  spitch_generate := fun _ _ _ => Ok (Ok ogg_sample);
  spitch_generate_nolang := spitch_generate_nolang ext_all_ok;
  wav_to_mp3 := fun d => match d with
                         | Byte.x52 :: _ => Ok mp3_sample
                         | _ => Raise BackendError
                         end;
  cloudinary_creds_set := true;
  cloudinary_post := cloudinary_post ext_all_ok;
  twilio_creds_set := true;
  twilio_number := twilio_number ext_all_ok;
  twilio_create := twilio_create ext_all_ok;
  recording_get := recording_get ext_all_ok;
  twilio_media_get := twilio_media_get ext_all_ok;
  ffmpeg_run := ffmpeg_run ext_all_ok;
  tmp_write := tmp_write ext_all_ok |}.

(** As [ext_all_ok], but the backend's JSON has an empty [candidates] list. *)
Definition ext_no_candidates : Ext := {|
  gemini_api_key_set := true;
  genai_installed := true;
  gemini_rest := fun _ _ => Ok (mk_gen_response (Some []));
  gemini_generate := gemini_generate ext_all_ok;
  pydub_to_wav := pydub_to_wav ext_all_ok;
  spitch_generate := spitch_generate ext_all_ok;
  spitch_generate_nolang := spitch_generate_nolang ext_all_ok;
  wav_to_mp3 := wav_to_mp3 ext_all_ok;
  cloudinary_creds_set := true;
  cloudinary_post := cloudinary_post ext_all_ok;
  twilio_creds_set := true;
  twilio_number := twilio_number ext_all_ok;
  twilio_create := twilio_create ext_all_ok;
  recording_get := recording_get ext_all_ok;
  twilio_media_get := twilio_media_get ext_all_ok;
  ffmpeg_run := ffmpeg_run ext_all_ok;
  tmp_write := tmp_write ext_all_ok |}.

(** A Spitch client that transcribes Yoruba speech and translates it. *)
Definition stt_ok : Stt := {|
  spitch_transcribe := fun _ _ => Ok "Kini iba?";
  spitch_translate := fun _ _ _ => Ok "What is malaria?" |}.

(** A WhatsApp voice note from a Nigerian number. *)
Definition voice_note : wa_request :=
  mk_wa_request (Some "audio/ogg") (Some "https://api.twilio.com/media/ME1")
                None (Some "whatsapp:+2348012345678").

(** The end-to-end REST request of the spec. *)
Definition malaria_request : rest_request :=
  mk_rest_request (Some (JStr "What is malaria?")) (Some (JStr "en")) (Some (JStr "health")).

(** The same request with ["category": null]. *)
Definition malaria_null_category : rest_request :=
  mk_rest_request (Some (JStr "What is malaria?")) (Some (JStr "en")) (Some JNull).

(** ** Specifications of monadic code

    [wpx m Q R w]: run from [w], [m] returns [a] in [w'] with [Q a w'],
    or raises [e] in [w'] with [R e w'].  [spec Rel P m]: every run keeps
    the relation [Rel] between the initial and the final world, whether
    it returns or raises, and returned values satisfy [P].  [safe Rel P m]
    is the same without raising. *)

Definition wpx {A} (m : M A) (Q : A -> world -> Prop) (R : exn -> world -> Prop)
  (w : world) : Prop :=
  match m w with
  | (Ok a, w') => Q a w'
  | (Raise e, w') => R e w'
  end.

Definition spec {A} (Rel : world -> world -> Prop) (P : A -> Prop) (m : M A) : Prop :=
  forall w, wpx m (fun a w' => Rel w w' /\ P a) (fun _ w' => Rel w w') w.

Definition safe {A} (Rel : world -> world -> Prop) (P : A -> Prop) (m : M A) : Prop :=
  forall w, wpx m (fun a w' => Rel w w' /\ P a) (fun _ _ => False) w.

Definition preorder (Rel : world -> world -> Prop) : Prop :=
  (forall w, Rel w w) /\ (forall w1 w2 w3, Rel w1 w2 -> Rel w2 w3 -> Rel w1 w3).

(** The new events of a run satisfy [Pe], and the log table is untouched. *)
Definition ext (Pe : event -> Prop) (w w' : world) : Prop :=
  (exists evs, trace w' = (evs ++ trace w)%list /\ Forall Pe evs) /\ db w' = db w.

(** As [ext], and one of the new events is a text message to [phone]. *)
Definition ext_sent (Pe : event -> Prop) (phone : string) (w w' : world) : Prop :=
  (exists evs, trace w' = (evs ++ trace w)%list /\ Forall Pe evs /\
     exists body, In (Ev_send_text phone body) evs) /\ db w' = db w.

(** Events that are not outbound WhatsApp messages. *)
Definition not_send (e : event) : Prop :=
  match e with
  | Ev_send_text _ _ | Ev_send_audio _ _ _ => False
  | _ => True
  end.

(** The outbound WhatsApp messages of a reply to [phone] carry text, and
    an audio message carries a media URL. *)
Definition deliverable (phone : string) (e : event) : Prop :=
  match e with
  | Ev_send_text to body => to = phone /\ body <> ""
  | Ev_send_audio to url caption => to = phone /\ url <> "" /\ caption <> ""
  | _ => True
  end.

Definition count_engine_calls (evs : list event) : nat :=
  length (filter (fun e => match e with Ev_engine_call => true | _ => false end) evs).

Definition count_normalize_calls (evs : list event) : nat :=
  length (filter (fun e => match e with Ev_normalize _ => true | _ => false end) evs).

(** Steps that neither log nor touch the table. *)
Definition same_obs (w w' : world) : Prop := trace w' = trace w /\ db w' = db w.

(** The events of the FFmpeg commands. *)
Definition ffmpeg_event (e : event) : Prop :=
  match e with Ev_ffmpeg _ => True | _ => False end.

(** The reply of [ask_gemini] is empty only when the backend answered and
    its first candidate part carries an empty or no text. *)
Definition ask_gemini_reply_ok (X : Ext) (prompt lang v : string) : Prop :=
  v <> "" \/
  exists instr resp, gemini_rest X instr prompt = Ok resp /\ extract_text resp = Ok "".

(** The failures of the synthesis chain of one request, step by step:
    missing storage credentials, a synthesis backend error (on the call or
    on reading its audio), a transcode error on the audio this request got
    back, a network error on uploading this request's mp3, a rejection of
    that upload by storage, or an upload response without a readable
    [secure_url]. *)
Inductive tts_failure (X : Ext) (text language : string) : Prop :=
| tts_no_credentials :
    cloudinary_creds_set X = false -> tts_failure X text language
| tts_backend_error e :
    spitch_generate X text language (voice_map language) = Raise e ->
    tts_failure X text language
| tts_read_error e :
    spitch_generate X text language (voice_map language) = Ok (Raise e) ->
    tts_failure X text language
| tts_transcode_error content e :
    spitch_generate X text language (voice_map language) = Ok (Ok content) ->
    wav_to_mp3 X content = Raise e -> tts_failure X text language
| tts_network_error content mp3 e :
    spitch_generate X text language (voice_map language) = Ok (Ok content) ->
    wav_to_mp3 X content = Ok mp3 -> cloudinary_post X mp3 = Raise e ->
    tts_failure X text language
| tts_upload_rejected content mp3 r :
    spitch_generate X text language (voice_map language) = Ok (Ok content) ->
    wav_to_mp3 X content = Ok mp3 -> cloudinary_post X mp3 = Ok r ->
    cr_status r <> 200 -> tts_failure X text language
| tts_no_secure_url content mp3 r :
    spitch_generate X text language (voice_map language) = Ok (Ok content) ->
    wav_to_mp3 X content = Ok mp3 -> cloudinary_post X mp3 = Ok r ->
    (forall u, cr_secure_url r <> Ok (Some u)) -> tts_failure X text language.

(** Only the two paths [ip] and [op] may differ between the files of
    [w0] and of [w]. *)
Definition untouched (ip op : path) (w0 w : world) : Prop :=
  forall q, q <> ip -> q <> op -> lookup_file q (files w) = lookup_file q (files w0).

Definition present (p : path) (w : world) : Prop := lookup_file p (files w) <> None.

(** Lesson [a] is at least as new as lesson [b]. *)
Definition newer (a b : lesson) : Prop := ls_created_at b <= ls_created_at a.

(** The voice replies of [IVRHookView.post]: the welcome prompt, the
    synthesised answer played from a non-empty URL, or a spoken apology. *)
Definition ivr_reply (r : http_response) : Prop :=
  r = xml (TwSayRecord ivr_welcome) \/
  (exists u, u <> "" /\ r = xml (TwPlay u)) \/
  r = xml (TwSay ivr_couldnt_hear) \/
  r = xml (TwSay ivr_trouble) \/
  r = xml (TwSay ivr_went_wrong).

(** The outcome of the audio branch of the WhatsApp webhook: either the
    request is answered (acknowledgment, and a text message went to the
    sender), or the reply goes on to the delivery block. *)
Definition wa_flow_ok (phone : string) (w : world) (d : flow (option string * string))
  (w' : world) : Prop :=
  match d with
  | Done r => r = wa_ack /\ ext_sent (deliverable phone) phone w w'
  | Cont _ => ext (deliverable phone) w w'
  end.


(** * Proofs *)

(** ** Marker parsing *)

Example parse_ex1 :
  gemini_result_of_raw " Bawo ni. Language Code: YO " = (Some "Bawo ni.", "yo").
Proof. reflexivity. Qed.

Example parse_ex2 :
  gemini_result_of_raw "say Language Code: x then Language Code: ha"
  = (Some "say Language Code: x then", "ha").
Proof. reflexivity. Qed.

Example parse_ex3 : gemini_result_of_raw "Hello" = (Some "Hello", "en").
Proof. reflexivity. Qed.

Example parse_ex4 : gemini_result_of_raw "Hi Language Code: fr" = (Some "Hi", "en").
Proof. reflexivity. Qed.

Lemma prefix_app_self (s t : string) : prefix s (s ++ t) = true.
Proof.
  induction s as [|c s IH]; simpl; [destruct t; reflexivity|].
  destruct (ascii_dec c c) as [_|n]; [exact IH|contradiction n; reflexivity].
Qed.

Lemma str_drop_app (s t : string) : str_drop (String.length s) (s ++ t) = t.
Proof. induction s as [|c s IH]; simpl; auto. Qed.

Lemma rsplit1_absent (sep s : string) :
  str_in sep s = false -> rsplit1 sep s = [s].
Proof.
  induction s as [|c s IH]; simpl; [reflexivity|].
  intros H. apply orb_false_iff in H as [Hp Hs].
  rewrite (IH Hs), Hp. reflexivity.
Qed.

(** The first character of the marker occurs nowhere else in it, so an
    occurrence cannot start inside the marker. *)
Lemma str_in_marker_tail (after : string) :
  str_in lang_code_prefix ("anguage Code:" ++ after) = str_in lang_code_prefix after.
Proof. reflexivity. Qed.

Lemma str_in_cons (sep : string) c s :
  str_in sep (String c s) = prefix sep (String c s) || str_in sep s.
Proof. reflexivity. Qed.

Lemma str_in_of_prefix (sep s : string) :
  prefix sep s = true -> str_in sep s = true.
Proof. intros H. destruct s; unfold str_in; rewrite H; reflexivity. Qed.

Lemma str_in_marker_app (before after : string) :
  str_in lang_code_prefix (before ++ lang_code_prefix ++ after) = true.
Proof.
  induction before as [|c b IH].
  - change (str_in lang_code_prefix (lang_code_prefix ++ after) = true).
    apply str_in_of_prefix, prefix_app_self.
  - change (str_in lang_code_prefix (String c (b ++ lang_code_prefix ++ after)) = true).
    rewrite str_in_cons, IH, orb_true_r. reflexivity.
Qed.

Lemma rsplit1_cons (sep : string) c s :
  rsplit1 sep (String c s) =
  match rsplit1 sep s with
  | [b; a] => [String c b; a]
  | _ => if prefix sep (String c s) then [EmptyString; str_drop (String.length sep) (String c s)]
         else [String c s]
  end.
Proof. reflexivity. Qed.

Lemma rsplit1_last_marker (before after : string) :
  str_in lang_code_prefix after = false ->
  rsplit1 lang_code_prefix (before ++ lang_code_prefix ++ after) = [before; after].
Proof.
  intros Ha. induction before as [|c b IH].
  - change (rsplit1 lang_code_prefix (String "L" ("anguage Code:" ++ after)) = [""; after]).
    rewrite rsplit1_cons, rsplit1_absent by (rewrite str_in_marker_tail; exact Ha).
    change (String "L" ("anguage Code:" ++ after)) with (lang_code_prefix ++ after).
    rewrite prefix_app_self, str_drop_app. reflexivity.
  - change (rsplit1 lang_code_prefix (String c (b ++ lang_code_prefix ++ after))
            = [String c b; after]).
    rewrite rsplit1_cons, IH. reflexivity.
Qed.

Lemma select_code_supported (c : string) : In c supported_codes -> select_code c = c.
Proof.
  unfold select_code. intros H.
  destruct (existsb (String.eqb c) supported_codes) eqn:E; [reflexivity|].
  exfalso. assert (existsb (String.eqb c) supported_codes = true) as E'.
  { apply existsb_exists. exists c. split; [exact H|apply String.eqb_refl]. }
  congruence.
Qed.

Lemma select_code_unsupported (c : string) : ~ In c supported_codes -> select_code c = "en".
Proof.
  unfold select_code. intros H.
  destruct (existsb (String.eqb c) supported_codes) eqn:E; [|reflexivity].
  apply existsb_exists in E as [x [Hx Ex]].
  apply String.eqb_eq in Ex. subst x. contradiction.
Qed.

(** C1. The backend text is stripped; when it contains the marker
    [Language Code:], it is split at the LAST occurrence (no occurrence in
    the text after the split point): the stripped text before is the reply,
    the text after, stripped and lower-cased, is the code when it is one of
    yo, ig, ha, en, and "en" otherwise.  Without a marker the whole
    stripped text is the reply and the code is "en". *)
Theorem conversational_parse_last_marker (raw : string) :
  (forall before after,
     strip raw = (before ++ lang_code_prefix ++ after)%string ->
     str_in lang_code_prefix after = false ->
     parse_gemini_response (strip raw) = (strip before, select_code (lower (strip after))))
  /\ (str_in lang_code_prefix (strip raw) = false ->
      parse_gemini_response (strip raw) = (strip raw, "en"))
  /\ (forall c, ~ In c supported_codes -> select_code c = "en")
  /\ (forall c, In c supported_codes -> select_code c = c).
Proof.
  split; [|split; [|split]].
  - intros before after Hs Ha. rewrite Hs. unfold parse_gemini_response.
    rewrite str_in_marker_app, rsplit1_last_marker by exact Ha. reflexivity.
  - intros H. unfold parse_gemini_response. rewrite H. reflexivity.
  - exact select_code_unsupported.
  - exact select_code_supported.
Qed.

Lemma conversational_parse_last_marker_witness :
  parse_gemini_response (strip "Ok, Language Code: here. Language Code:  HA ")
  = ("Ok, Language Code: here.", "ha").
Proof.
  exact (proj1 (conversational_parse_last_marker "Ok, Language Code: here. Language Code:  HA ")
           "Ok, Language Code: here. " "  HA" eq_refl eq_refl).
Defined.

(** ** Weakest preconditions *)

Section Wp.
Context {A B : Type}.

Lemma wpx_bind (m : M A) (k : A -> M B) Q R w :
  wpx m (fun a w1 => wpx (k a) Q R w1) R w -> wpx (bind m k) Q R w.
Proof. unfold wpx, bind. destruct (m w) as [[a|e] w1]; auto. Qed.

Lemma wpx_try (m : M A) h Q R w :
  wpx m Q (fun e w1 => wpx (h e) Q R w1) w -> wpx (try_except m h) Q R w.
Proof. unfold wpx, try_except. destruct (m w) as [[a|e] w1]; auto. Qed.

Lemma wpx_ret (a : A) Q R w : Q a w -> wpx (ret a) Q R w.
Proof. auto. Qed.

Lemma wpx_raise e Q (R : exn -> world -> Prop) w : R e w -> wpx (raise (A:=A) e) Q R w.
Proof. auto. Qed.

Lemma wpx_lift (r : result A) Q R w :
  match r with Ok a => Q a w | Raise e => R e w end -> wpx (lift r) Q R w.
Proof. unfold wpx, lift. destruct r; auto. Qed.

Lemma wpx_conseq (m : M A) (Q Q' : A -> world -> Prop) (R R' : exn -> world -> Prop) w :
  wpx m Q R w ->
  (forall a w', Q a w' -> Q' a w') -> (forall e w', R e w' -> R' e w') ->
  wpx m Q' R' w.
Proof. unfold wpx. destruct (m w) as [[a|e] w1]; auto. Qed.

End Wp.

Lemma wpx_log e Q (R : exn -> world -> Prop) w :
  (forall w', trace w' = e :: trace w -> db w' = db w -> Q tt w') -> wpx (log e) Q R w.
Proof. intros H. apply H; reflexivity. Qed.

Lemma wpx_fresh_id Q (R : exn -> world -> Prop) w :
  (forall a w', same_obs w w' -> Q a w') -> wpx fresh_id Q R w.
Proof. intros H. apply H. split; reflexivity. Qed.

Lemma wpx_write_file p d Q (R : exn -> world -> Prop) w :
  (forall a w', same_obs w w' -> Q a w') -> wpx (write_file p d) Q R w.
Proof. intros H. apply H. split; reflexivity. Qed.

Lemma wpx_read_file p Q (R : exn -> world -> Prop) w :
  (forall a w', same_obs w w' -> Q a w') -> (forall e w', same_obs w w' -> R e w') ->
  wpx (read_file p) Q R w.
Proof.
  intros H1 H2. unfold wpx, read_file. destruct (lookup_file p (files w)).
  - apply H1. split; reflexivity.
  - apply H2. split; reflexivity.
Qed.

Lemma wpx_file_exists p Q (R : exn -> world -> Prop) w :
  (forall a w', same_obs w w' -> Q a w') -> wpx (file_exists p) Q R w.
Proof. intros H. apply H. split; reflexivity. Qed.

Lemma wpx_file_nonempty p Q (R : exn -> world -> Prop) w :
  (forall a w', same_obs w w' -> Q a w') -> wpx (file_nonempty p) Q R w.
Proof. intros H. apply H. split; reflexivity. Qed.

Lemma wpx_unlink p Q (R : exn -> world -> Prop) w :
  (forall a w', same_obs w w' -> Q a w') -> (forall e w', same_obs w w' -> R e w') ->
  wpx (unlink p) Q R w.
Proof.
  intros H1 H2. unfold wpx, unlink. destruct (lookup_file p (files w)).
  - apply H1. split; reflexivity.
  - apply H2. split; reflexivity.
Qed.

(** ** The observation relation *)

Lemma ext_refl P w : ext P w w.
Proof. split; [exists []; split; [reflexivity|constructor]|reflexivity]. Qed.

Lemma ext_trans P w1 w2 w3 : ext P w1 w2 -> ext P w2 w3 -> ext P w1 w3.
Proof.
  intros [[e1 [H1 F1]] D1] [[e2 [H2 F2]] D2]. split; [|congruence].
  exists (e2 ++ e1)%list. split.
  - rewrite H2, H1, app_assoc. reflexivity.
  - apply Forall_app. auto.
Qed.

Lemma ext_weaken (P P' : event -> Prop) w w' :
  (forall e, P e -> P' e) -> ext P w w' -> ext P' w w'.
Proof.
  intros HP [[evs [H F]] D]. split; [|exact D].
  exists evs. split; [exact H|]. eapply Forall_impl; eauto.
Qed.

Lemma ext_same P w0 w w' : ext P w0 w -> same_obs w w' -> ext P w0 w'.
Proof.
  intros Hx [Ht Hd]. eapply ext_trans; [exact Hx|].
  split; [exists []; split; [exact Ht|constructor]|exact Hd].
Qed.

Lemma ext_log P (e : event) w0 w w' :
  ext P w0 w -> trace w' = e :: trace w -> db w' = db w -> P e -> ext P w0 w'.
Proof.
  intros Hx Ht Hd He. eapply ext_trans; [exact Hx|].
  split; [exists [e]; split; [exact Ht|constructor; auto]|exact Hd].
Qed.

Lemma ext_chain P P1 w0 w1 w2 :
  ext P w0 w1 -> ext P1 w1 w2 -> (forall e, P1 e -> P e) -> ext P w0 w2.
Proof. intros H1 H2 HP. eapply ext_trans; [exact H1|]. eapply ext_weaken; eauto. Qed.

Lemma not_send_deliverable phone e : not_send e -> deliverable phone e.
Proof. destruct e; simpl; tauto. Qed.

(** The step tactic: the goal is [wpx m Q R w] and [Hx : ext P w0 w]
    relates the initial world to the current one. *)
Ltac event_incl := let e := fresh "e" in intros e; destruct e; simpl; tauto.

Ltac extend H :=
  lazymatch type of H with
  | ?Rl ?w1 ?w2 =>
    match goal with
    | Hx : ext _ _ w1 |- _ =>
        let Hn := fresh in
        first [ pose proof (ext_same _ _ _ _ Hx H) as Hn
              | pose proof (ext_chain _ _ _ _ _ Hx H ltac:(event_incl)) as Hn ];
        clear Hx H; rename Hn into Hx
    end
  end.

Ltac quiet_intro :=
  let a := fresh "a" in let w' := fresh "w" in let Hs := fresh "Hs" in
  intros a w' Hs; cbv beta; extend Hs.

Ltac step :=
  lazymatch goal with
  | |- wpx (bind _ _) _ _ _ => apply wpx_bind
  | |- wpx (try_except _ _) _ _ _ => apply wpx_try
  | |- wpx (ret _) _ _ _ => apply wpx_ret
  | |- wpx (raise _) _ _ _ => apply wpx_raise
  | |- wpx (lift ?r) _ _ _ =>
      apply wpx_lift; let E := fresh "E" in destruct r eqn:E; cbv beta
  | |- wpx (log _) _ _ _ =>
      apply wpx_log;
      let w' := fresh "w" in let Ht := fresh "Ht" in let Hd := fresh "Hd" in
      intros w' Ht Hd; cbv beta;
      match goal with
      | Hx : ext _ _ _ |- _ =>
          let Hn := fresh in
          pose proof (ext_log _ _ _ _ _ Hx Ht Hd ltac:(simpl; first [exact I | tauto | eexists; reflexivity])) as Hn;
          clear Hx Ht Hd; rename Hn into Hx
      end
  | |- wpx fresh_id _ _ _ => apply wpx_fresh_id; quiet_intro
  | |- wpx (write_file _ _) _ _ _ => apply wpx_write_file; quiet_intro
  | |- wpx (read_file _) _ _ _ => apply wpx_read_file; quiet_intro
  | |- wpx (file_exists _) _ _ _ => apply wpx_file_exists; quiet_intro
  | |- wpx (file_nonempty _) _ _ _ => apply wpx_file_nonempty; quiet_intro
  | |- wpx (unlink _) _ _ _ => apply wpx_unlink; quiet_intro
  | |- wpx (match ?x with _ => _ end) _ _ _ => let E := fresh "E" in destruct x eqn:E
  | |- wpx (if ?b then _ else _) _ _ _ => let E := fresh "E" in destruct b eqn:E
  | |- wpx (let _ := _ in _) _ _ _ => cbv zeta
  end.

(** Use the specification [L] of a called function. *)
Ltac call L :=
  eapply wpx_conseq;
  [ apply L
  | let a := fresh "a" in let w' := fresh "w" in let H := fresh "Hc" in
    let V := fresh "Hv" in
    intros a w' [H V]; cbv beta; extend H
  | let e := fresh "e" in let w' := fresh "w" in let H := fresh "Hc" in
    intros e w' H; cbv beta in H |- *; first [contradiction | extend H] ].

Ltac close_ext :=
  match goal with
  | Hx : ext _ _ _ |- _ => first [ exact Hx | split; [exact Hx | ] ]
  end.

Ltac fin :=
  try (split; [eassumption | ]); try eassumption; try exact I.

(** ** Files *)

Lemma path_eqb_true p q : path_eqb p q = true <-> p = q.
Proof.
  destruct p as [s1 i1 e1], q as [s2 i2 e2]. unfold path_eqb. simpl.
  rewrite !andb_true_iff, !String.eqb_eq, Nat.eqb_eq.
  split; [intros [[-> ->] ->]; reflexivity|intros H; injection H as -> -> ->; auto].
Qed.

Lemma path_eqb_refl p : path_eqb p p = true.
Proof. apply path_eqb_true. reflexivity. Qed.

Lemma path_eqb_false p q : p <> q -> path_eqb p q = false.
Proof. intros H. destruct (path_eqb p q) eqn:E; [apply path_eqb_true in E; contradiction|reflexivity]. Qed.

Lemma lookup_remove_same p fs : lookup_file p (remove_path p fs) = None.
Proof.
  unfold lookup_file, remove_path. induction fs as [|[q d] fs IH]; [reflexivity|].
  simpl. destruct (path_eqb q p) eqn:E; simpl; [exact IH|rewrite E; exact IH].
Qed.

Lemma lookup_remove_other p q fs : q <> p -> lookup_file q (remove_path p fs) = lookup_file q fs.
Proof.
  intros Hn. unfold lookup_file, remove_path. induction fs as [|[r d] fs IH]; [reflexivity|].
  simpl. destruct (path_eqb r p) eqn:E; simpl.
  - apply path_eqb_true in E. subst r. rewrite path_eqb_false by congruence. exact IH.
  - destruct (path_eqb r q); [reflexivity|exact IH].
Qed.

Lemma lookup_write_same p d fs : lookup_file p ((p, d) :: remove_path p fs) = Some d.
Proof. unfold lookup_file. simpl. rewrite (proj2 (path_eqb_true p p) eq_refl). reflexivity. Qed.

Lemma lookup_write_other p q d fs :
  q <> p -> lookup_file q ((p, d) :: remove_path p fs) = lookup_file q fs.
Proof.
  intros Hn. rewrite <- (lookup_remove_other p q fs Hn). unfold lookup_file at 1. simpl.
  rewrite path_eqb_false by congruence. reflexivity.
Qed.


(** ** Specifications of the helpers of [utils.py] *)

Lemma upload_to_cloudinary_spec X p w :
  wpx (upload_to_cloudinary X p) (fun _ w' => ext not_send w w' /\ True)
      (fun _ w' => ext not_send w w') w.
Proof.
  pose proof (ext_refl not_send w) as Hx. unfold upload_to_cloudinary.
  repeat step; fin.
Qed.

Lemma normalize_audio_spec X b f w :
  wpx (normalize_audio X b f) (fun _ w' => ext not_send w w' /\ True) (fun _ _ => False) w.
Proof.
  pose proof (ext_refl not_send w) as Hx. unfold normalize_audio.
  repeat step; fin.
Qed.

Lemma safe_tts_spec X t l p w :
  wpx (safe_tts X t l p) (fun _ w' => ext not_send w w' /\ True) (fun _ _ => False) w.
Proof.
  pose proof (ext_refl not_send w) as Hx. unfold safe_tts.
  repeat step; fin. call upload_to_cloudinary_spec; repeat step; fin.
Qed.

Lemma safe_tts_nolang_spec X t p w :
  wpx (safe_tts_nolang X t p) (fun _ w' => ext not_send w w' /\ True) (fun _ _ => False) w.
Proof.
  pose proof (ext_refl not_send w) as Hx. unfold safe_tts_nolang.
  repeat step; fin. call upload_to_cloudinary_spec; repeat step; fin.
Qed.

Lemma truthy_some (o : option string) s : truthy o = Some s -> s <> "".
Proof.
  destruct o as [s'|]; simpl; [|discriminate].
  destruct (String.eqb_spec s' "") as [_|Hn]; [discriminate|]. congruence.
Qed.

Lemma truthy_some_eq (o : option string) s : truthy o = Some s -> o = Some s.
Proof.
  destruct o as [s'|]; simpl; [|discriminate].
  destruct (String.eqb_spec s' ""); congruence.
Qed.

Lemma gemini_result_nonempty (raw : string) : fst (gemini_result_of_raw raw) <> Some "".
Proof.
  unfold gemini_result_of_raw. destruct (parse_gemini_response (strip raw)) as [c l].
  destruct (truthy (Some c)) eqn:E; simpl; [|discriminate].
  apply truthy_some in E. congruence.
Qed.

Lemma ask_gemini_spec X prompt lang w :
  wpx (ask_gemini X prompt lang)
      (fun v w' => ext not_send w w' /\ ask_gemini_reply_ok X prompt lang v)
      (fun _ _ => False) w.
Proof.
  pose proof (ext_refl not_send w) as Hx. unfold ask_gemini.
  repeat step; try (split; [eassumption|]); try (left; discriminate).
  destruct (String.eqb_spec a0 "") as [->|Hn]; [|left; exact Hn].
  right. eexists; eexists; split; eassumption.
Qed.

Lemma gemini_call_spec X parts w :
  wpx (gemini_call X parts) (fun v w' => ext not_send w w' /\ fst v <> Some "")
      (fun _ w' => ext not_send w w') w.
Proof.
  pose proof (ext_refl not_send w) as Hx. unfold gemini_call.
  repeat step; fin. apply gemini_result_nonempty.
Qed.

Lemma safe_gemini_spec X a f t w :
  wpx (safe_gemini_conversational_audio_or_text X a f t)
      (fun v w' => ext not_send w w' /\ fst v <> Some "") (fun _ _ => False) w.
Proof.
  pose proof (ext_refl not_send w) as Hx. unfold safe_gemini_conversational_audio_or_text.
  repeat step; fin; try discriminate.
  - call gemini_call_spec; fin. repeat step; fin; discriminate.
  - call normalize_audio_spec. repeat step; fin; try discriminate.
    call gemini_call_spec; fin. repeat step; fin; discriminate.
Qed.

Lemma download_twilio_media_spec X url w :
  wpx (download_twilio_media X url) (fun _ w' => ext not_send w w' /\ True)
      (fun _ _ => False) w.
Proof.
  pose proof (ext_refl not_send w) as Hx. unfold download_twilio_media.
  repeat step; fin.
Qed.

Lemma ffmpeg_attempt_spec X i ip op w :
  wpx (ffmpeg_attempt X i ip op) (fun _ w' => ext ffmpeg_event w w' /\ True)
      (fun _ w' => ext ffmpeg_event w w') w.
Proof.
  pose proof (ext_refl ffmpeg_event w) as Hx. unfold ffmpeg_attempt, silent.
  repeat step; fin.
Qed.

Lemma ffmpeg_attempts_spec X cmds ip op w :
  wpx (ffmpeg_attempts X cmds ip op) (fun _ w' => ext ffmpeg_event w w' /\ True)
      (fun _ _ => False) w.
Proof.
  revert w. induction cmds as [|i rest IH]; intros w;
    pose proof (ext_refl ffmpeg_event w) as Hx; simpl.
  - fin.
  - repeat step. call ffmpeg_attempt_spec. repeat step; fin. call IH. fin.
    repeat step; fin. call IH. fin.
Qed.

(** [process_whatsapp_audio] only runs FFmpeg commands: it never reaches
    [normalize_audio], and it never raises. *)
Lemma process_whatsapp_audio_spec X b f w :
  wpx (process_whatsapp_audio X b f) (fun _ w' => ext ffmpeg_event w w' /\ True)
      (fun _ _ => False) w.
Proof.
  pose proof (ext_refl ffmpeg_event w) as Hx. unfold process_whatsapp_audio, silent.
  repeat step; [|fin]. call ffmpeg_attempts_spec. repeat step; fin.
Qed.

Lemma send_whatsapp_message_spec X to body w :
  wpx (send_whatsapp_message X to body)
      (fun _ w' => trace w' = Ev_send_text to body :: trace w /\ db w' = db w)
      (fun _ _ => False) w.
Proof.
  unfold send_whatsapp_message, wpx, bind, log, try_except, lift, ret, raise.
  destruct (twilio_creds_set X), (twilio_number X); simpl; auto;
    destruct (twilio_create _ _ _ _ _); simpl; auto.
Qed.

Lemma send_whatsapp_audio_spec X to url caption w :
  wpx (send_whatsapp_audio X to url caption)
      (fun _ w' => trace w' = Ev_send_audio to url caption :: trace w /\ db w' = db w)
      (fun _ _ => False) w.
Proof.
  unfold send_whatsapp_audio, wpx, bind, log, try_except, lift, ret, raise.
  destruct (twilio_creds_set X), (twilio_number X); simpl; auto;
    destruct (twilio_create _ _ _ _ _); simpl; auto.
Qed.

Lemma wpx_exists {A} (m : M A) (v : A) (P : world -> Prop) w :
  wpx m (fun a w' => a = v /\ P w') (fun _ _ => False) w ->
  exists w', m w = (Ok v, w') /\ P w'.
Proof.
  unfold wpx. destruct (m w) as [[a|e] w']; [intros [-> HP]; eauto|contradiction].
Qed.

Lemma wpx_never_raises {A} (m : M A) Q w :
  wpx m Q (fun _ _ => False) w -> exists a w', m w = (Ok a, w').
Proof. unfold wpx. destruct (m w) as [[a|e] w']; [eauto|contradiction]. Qed.

Lemma truthy_nonempty (s : string) : s <> "" -> truthy (Some s) = Some s.
Proof. simpl. intros H. destruct (String.eqb_spec s ""); congruence. Qed.

Lemma wpx_fst {A} (m : M A) (v : A) w :
  wpx m (fun a _ => a = v) (fun _ _ => False) w -> fst (m w) = Ok v.
Proof. unfold wpx. destruct (m w) as [[a|e] w']; [intros ->; reflexivity|contradiction]. Qed.

(** The value [safe_tts] returns, step by step through its files. *)
Lemma safe_tts_value X text language prefix w :
  fst (safe_tts X text language prefix w) =
  Ok (match spitch_generate X text language (voice_map language) with
      | Ok (Ok content) =>
          match wav_to_mp3 X content with
          | Ok mp3 =>
              if cloudinary_creds_set X then
                match cloudinary_post X mp3 with
                | Ok r => if Nat.eqb (cr_status r) 200 then
                            match cr_secure_url r with Ok o => o | Raise _ => None end
                          else None
                | Raise _ => None
                end
              else None
          | Raise _ => None
          end
      | _ => None
      end).
Proof.
  unfold safe_tts, upload_to_cloudinary, try_except, bind, lift, ret, fresh_id, write_file, read_file.
  cbn -[lookup_file remove_path].
  destruct (spitch_generate X text language (voice_map language)) as [[content|e0]|e0];
    cbn -[lookup_file remove_path]; try reflexivity.
  rewrite lookup_write_same. cbn -[lookup_file remove_path].
  destruct (wav_to_mp3 X content) as [mp3|e1]; cbn -[lookup_file remove_path]; try reflexivity.
  destruct (cloudinary_creds_set X); cbn -[lookup_file remove_path]; try reflexivity.
  rewrite lookup_write_same. cbn -[lookup_file remove_path].
  destruct (cloudinary_post X mp3) as [r|e2]; cbn; try reflexivity.
  destruct (Nat.eqb (cr_status r) 200); cbn; try reflexivity.
  destruct (cr_secure_url r); reflexivity.
Qed.

Lemma safe_tts_failure_none X text language prefix w :
  tts_failure X text language -> fst (safe_tts X text language prefix w) = Ok None.
Proof.
  intros F. rewrite safe_tts_value. f_equal.
  destruct F as [Hc|e He|e He|c e Hs He|c m e Hs Hm He|c m r Hs Hm Hp Hr|c m r Hs Hm Hp Hu].
  - destruct (spitch_generate _ _ _ _) as [[c|]|]; [|reflexivity..].
    destruct (wav_to_mp3 X c); [rewrite Hc|]; reflexivity.
  - rewrite He. reflexivity.
  - rewrite He. reflexivity.
  - rewrite Hs, He. reflexivity.
  - rewrite Hs, Hm, He. destruct (cloudinary_creds_set X); reflexivity.
  - rewrite Hs, Hm, Hp. destruct (cloudinary_creds_set X); [|reflexivity].
    apply Nat.eqb_neq in Hr. rewrite Hr. reflexivity.
  - rewrite Hs, Hm, Hp. destruct (cloudinary_creds_set X); [|reflexivity].
    destruct (Nat.eqb (cr_status r) 200); [|reflexivity].
    destruct (cr_secure_url r) as [[u|]|] eqn:Eu; [|reflexivity..].
    exfalso. exact (Hu u eq_refl).
Qed.

(** When synthesis yields no URL, the delivery block sends the reply as a
    text message and acknowledges. *)
Lemma wa_deliver_text_only X phone reply lang w w1 :
  reply <> "" -> safe_tts X reply lang "wa" w = (Ok None, w1) ->
  exists w2, wa_deliver X phone (Some reply) lang w = (Ok wa_ack, w2) /\
             trace w2 = Ev_send_text phone reply :: trace w1.
Proof.
  intros Hr Ht. unfold wa_deliver, try_except, bind.
  rewrite (truthy_nonempty reply Hr), Ht. cbn [truthy]. cbn beta iota.
  pose proof (send_whatsapp_message_spec X phone reply w1) as Hs. unfold wpx in Hs.
  destruct (send_whatsapp_message X phone reply w1) as [[a|e] w2]; [|contradiction].
  exists w2. split; [reflexivity|]. apply Hs.
Qed.

(** C2. [safe_tts] never raises: every run returns a value.  On each
    failure of this request's synthesis chain (missing storage
    credentials, a synthesis backend error, a transcode error on the audio
    it got back, a network error or a rejection on uploading its mp3, or an
    upload response without a readable [secure_url]) it returns [None], and
    the WhatsApp delivery block then sends the non-empty reply as a
    text-only message to the sender and acknowledges the request. *)
Theorem safe_tts_never_raises X text language prefix phone w :
  (exists v w', safe_tts X text language prefix w = (Ok v, w')) /\
  (tts_failure X text language ->
   fst (safe_tts X text language prefix w) = Ok None /\
   (text <> "" ->
    exists w2, wa_deliver X phone (Some text) language w = (Ok wa_ack, w2) /\
               trace w2 = Ev_send_text phone text :: trace (snd (safe_tts X text language "wa" w)))).
Proof.
  split; [eapply wpx_never_raises, safe_tts_spec|].
  intros F. split; [apply safe_tts_failure_none; exact F|]. intros Hn.
  apply wa_deliver_text_only; [exact Hn|].
  pose proof (safe_tts_failure_none X text language "wa" w F) as Hf.
  destruct (safe_tts X text language "wa" w) as [r w1]. simpl in Hf |- *. subst r. reflexivity.
Qed.

Lemma safe_tts_never_raises_witness :
  fst (safe_tts ext_tts_not_wav "Bawo ni." "yo" "wa" world0) = Ok None /\
  exists w2,
    wa_deliver ext_tts_not_wav "whatsapp:+2348012345678" (Some "Bawo ni.") "yo" world0
    = (Ok wa_ack, w2) /\
    trace w2 = [Ev_send_text "whatsapp:+2348012345678" "Bawo ni."].
Proof.
  destruct (proj2 (safe_tts_never_raises ext_tts_not_wav "Bawo ni." "yo" "wa"
                     "whatsapp:+2348012345678" world0)
                  (tts_transcode_error ext_tts_not_wav "Bawo ni." "yo" ogg_sample BackendError
                     eq_refl eq_refl)) as [H1 H2].
  split; [exact H1|].
  destruct (H2 ltac:(discriminate)) as [w2 [Hd Ht]].
  exists w2. split; [exact Hd|]. rewrite Ht. vm_compute. reflexivity.
Defined.

(** ** The webhooks *)

Lemma wpx_send_text X to body Q (R : exn -> world -> Prop) w :
  (forall a w', trace w' = Ev_send_text to body :: trace w -> db w' = db w -> Q a w') ->
  wpx (send_whatsapp_message X to body) Q R w.
Proof.
  intros H. eapply wpx_conseq; [apply send_whatsapp_message_spec| |].
  - intros a w' [Ht Hd]. auto.
  - intros e w' [].
Qed.

Lemma wpx_send_audio X to url caption Q (R : exn -> world -> Prop) w :
  (forall a w', trace w' = Ev_send_audio to url caption :: trace w -> db w' = db w -> Q a w') ->
  wpx (send_whatsapp_audio X to url caption) Q R w.
Proof.
  intros H. eapply wpx_conseq; [apply send_whatsapp_audio_spec| |].
  - intros a w' [Ht Hd]. auto.
  - intros e w' [].
Qed.

Lemma ext_send P to body w0 w w' :
  ext P w0 w -> trace w' = Ev_send_text to body :: trace w -> db w' = db w ->
  P (Ev_send_text to body) -> ext P w0 w' /\ ext_sent P to w0 w'.
Proof.
  intros Hx Ht Hd Hp. split; [eapply ext_log; eauto|].
  destruct Hx as [[evs [H F]] D]. split; [|congruence].
  exists (Ev_send_text to body :: evs). split; [rewrite Ht, H; reflexivity|].
  split; [constructor; auto|]. exists body. left. reflexivity.
Qed.

Lemma ext_sent_after P phone w0 w1 w2 :
  ext P w0 w1 -> ext_sent P phone w1 w2 -> ext_sent P phone w0 w2.
Proof.
  intros [[e1 [H1 F1]] D1] [[e2 [H2 [F2 [b Hb]]]] D2]. split; [|congruence].
  exists (e2 ++ e1)%list. split; [rewrite H2, H1, app_assoc; reflexivity|].
  split; [apply Forall_app; auto|]. exists b. apply in_or_app. left. exact Hb.
Qed.

Ltac deliv :=
  simpl; first
    [ exact I
    | split; [reflexivity|];
      first [ split; eapply truthy_some; eassumption
            | eapply truthy_some; eassumption
            | discriminate ] ].

Ltac send :=
  lazymatch goal with
  | |- wpx (send_whatsapp_message _ _ _) _ _ _ =>
      apply wpx_send_text;
      let a := fresh "a" in let w' := fresh "w" in let Ht := fresh "Ht" in
      let Hd := fresh "Hd" in
      intros a w' Ht Hd;
      match goal with
      | Hx : ext _ _ _ |- _ =>
          let Hn := fresh in let Hs := fresh "Hsent" in
          destruct (ext_send _ _ _ _ _ _ Hx Ht Hd ltac:(deliv)) as [Hn Hs];
          clear Hx Ht Hd; rename Hn into Hx
      end
  | |- wpx (send_whatsapp_audio _ _ _ _) _ _ _ =>
      apply wpx_send_audio;
      let a := fresh "a" in let w' := fresh "w" in let Ht := fresh "Ht" in
      let Hd := fresh "Hd" in
      intros a w' Ht Hd;
      match goal with
      | Hx : ext _ _ _ |- _ =>
          let Hn := fresh in
          pose proof (ext_log _ _ _ _ _ Hx Ht Hd ltac:(deliv)) as Hn;
          clear Hx Ht Hd; rename Hn into Hx
      end
  end.

Ltac wstep := first [send | step].

Ltac ivr_done :=
  try (split; [eassumption|]); unfold ivr_reply;
  first [ left; reflexivity
        | right; left; eexists; split; [eapply truthy_some; eassumption|reflexivity]
        | do 2 right; left; reflexivity
        | do 3 right; left; reflexivity
        | do 4 right; reflexivity ].
Lemma ivr_post_spec X url w :
  wpx (ivr_post X url) (fun r w' => ext not_send w w' /\ ivr_reply r) (fun _ _ => False) w.
Proof.
  pose proof (ext_refl not_send w) as Hx. unfold ivr_post.
  repeat step; try ivr_done.
  call safe_gemini_spec; repeat step; try ivr_done.
  call safe_tts_spec; repeat step; ivr_done.
Qed.

Ltac wa_done := try (split; [reflexivity|eassumption]).
Lemma wa_deliver_spec X phone ai lang w :
  wpx (wa_deliver X phone ai lang)
      (fun r w' => r = wa_ack /\ ext_sent (deliverable phone) phone w w')
      (fun _ _ => False) w.
Proof.
  pose proof (ext_refl (deliverable phone) w) as Hx. unfold wa_deliver.
  repeat wstep; wa_done. call safe_tts_spec. repeat wstep; wa_done.
Qed.
Ltac wcall :=
  first [ wstep
        | call download_twilio_media_spec
        | call process_whatsapp_audio_spec
        | call safe_gemini_spec ].
Lemma wa_audio_path_spec X phone url w :
  wpx (wa_audio_path X phone url) (fun d w' => wa_flow_ok phone w d w') (fun _ _ => False) w.
Proof.
  pose proof (ext_refl (deliverable phone) w) as Hx. unfold wa_audio_path.
  repeat wcall; simpl; wa_done; try eassumption.
Qed.
Ltac deliver :=
  eapply wpx_conseq;
  [ apply wa_deliver_spec
  | let r := fresh "r" in let w' := fresh "w" in let Hs := fresh "Hs" in
    intros r w' [-> Hs]; split; [reflexivity | eapply ext_sent_after; eassumption]
  | intros ? ? [] ].
Lemma whatsapp_post_spec X req w :
  wpx (whatsapp_post X req)
      (fun r w' => r = wa_ack /\
         ext_sent (deliverable (default "anonymous" (wa_from req)))
                  (default "anonymous" (wa_from req)) w w')
      (fun _ _ => False) w.
Proof.
  pose proof (ext_refl (deliverable (default "anonymous" (wa_from req))) w) as Hx.
  unfold whatsapp_post. cbv zeta. repeat wstep.
  - eapply wpx_conseq; [apply wa_audio_path_spec | | intros ? ? []].
    intros [r|[ai lang]] w1 Hd; simpl in Hd.
    + destruct Hd as [-> Hs]. step. split; [reflexivity|exact Hs].
    + cbn beta iota. deliver.
  - call safe_gemini_spec. repeat wstep; wa_done. deliver.
  - wa_done.
Qed.

Lemma wpx_run {A} (m : M A) (Q : A -> world -> Prop) w :
  wpx m Q (fun _ _ => False) w -> exists a w', m w = (Ok a, w') /\ Q a w'.
Proof. unfold wpx. destruct (m w) as [[a|e] w']; [eauto|contradiction]. Qed.








(** C8. No reply is delivered empty.  Every WhatsApp message the webhook
    sends goes to the sender with non-empty text, an audio message also
    carries a non-empty media URL, and at least one text message is sent.
    The IVR webhook plays audio only from a non-empty URL; without audio it
    speaks a non-empty prompt. *)
Theorem reply_never_empty X recording_url req w :
  (forall r w', ivr_post X recording_url w = (Ok r, w') ->
     (exists u, u <> "" /\ r = xml (TwPlay u)) \/
     (exists m, m <> "" /\ (r = xml (TwSay m) \/ r = xml (TwSayRecord m)))) /\
  (forall r w', whatsapp_post X req w = (Ok r, w') ->
     exists evs, trace w' = (evs ++ trace w)%list /\
       Forall (deliverable (default "anonymous" (wa_from req))) evs /\
       exists body, body <> "" /\ In (Ev_send_text (default "anonymous" (wa_from req)) body) evs).
Proof.
  split.
  - intros r w' Hr. pose proof (ivr_post_spec X recording_url w) as H.
    unfold wpx in H. rewrite Hr in H. destruct H as [_ Hi].
    unfold ivr_reply in Hi.
    destruct Hi as [ -> | [[u [Hu ->]] | [ -> | [ -> | -> ]]]];
      [right; eexists; split; [|right; reflexivity]
      | left; eauto
      | right; eexists; split; [|left; reflexivity] ..];
      discriminate.
  - intros r w' Hr. pose proof (whatsapp_post_spec X req w) as H.
    unfold wpx in H. rewrite Hr in H. destruct H as [_ [[evs [Ht [F [body Hb]]]] _]].
    exists evs. split; [exact Ht|]. split; [exact F|]. exists body. split; [|exact Hb].
    rewrite Forall_forall in F. exact (proj2 (F _ Hb)).
Qed.

Lemma reply_never_empty_witness :
  (exists r w', ivr_post ext_all_ok (Some "https://api.twilio.com/rec/RE1") world0 = (Ok r, w') /\
     ((exists u, u <> "" /\ r = xml (TwPlay u)) \/
      (exists m, m <> "" /\ (r = xml (TwSay m) \/ r = xml (TwSayRecord m))))) /\
  (exists r w', whatsapp_post ext_tts_down voice_note world0 = (Ok r, w') /\
     exists evs, trace w' = (evs ++ trace world0)%list /\
       Forall (deliverable "whatsapp:+2348012345678") evs /\
       exists body, body <> "" /\ In (Ev_send_text "whatsapp:+2348012345678" body) evs).
Proof.
  split.
  - destruct (ivr_post ext_all_ok (Some "https://api.twilio.com/rec/RE1") world0)
      as [[r|e] w'] eqn:E; [|vm_compute in E; discriminate].
    exists r, w'. split; [reflexivity|].
    exact (proj1 (reply_never_empty ext_all_ok (Some "https://api.twilio.com/rec/RE1")
                    voice_note world0) r w' E).
  - destruct (whatsapp_post ext_tts_down voice_note world0)
      as [[r|e] w'] eqn:E; [|vm_compute in E; discriminate].
    exists r, w'. split; [reflexivity|].
    exact (proj2 (reply_never_empty ext_tts_down None voice_note world0) r w' E).
Defined.

(** ** The audio repair step and the engine *)

Lemma count_normalize_ffmpeg evs : Forall ffmpeg_event evs -> count_normalize_calls evs = 0.
Proof.
  induction 1 as [|e evs He _ IH]; [reflexivity|].
  destruct e; simpl in He; try contradiction. exact IH.
Qed.

(** C4.  [process_whatsapp_audio] never calls [normalize_audio]: the new
    events of every run are FFmpeg commands.  When all three FFmpeg
    commands fail on a voice note that pydub would decode, the webhook
    tries the three commands, then sends the bad-format apology without
    any fallback transcoding, and the engine is never called. *)
Theorem whatsapp_audio_no_transcoder_fallback X audio_bytes input_format w :
  (exists v w' evs, process_whatsapp_audio X audio_bytes input_format w = (Ok v, w') /\
     trace w' = (evs ++ trace w)%list /\ count_normalize_calls evs = 0) /\
  fst (normalize_audio ext_ffmpeg_fails ogg_sample (Some "ogg") world0) = Ok (Some wav_sample) /\
  whatsapp_post ext_ffmpeg_fails voice_note world0 =
  (Ok wa_ack,
   mk_world [] [Ev_send_text "whatsapp:+2348012345678" wa_bad_format;
                Ev_ffmpeg 2; Ev_ffmpeg 1; Ev_ffmpeg 0] [] 1).
Proof.
  split; [|split; vm_compute; reflexivity].
  destruct (wpx_run _ _ _ (process_whatsapp_audio_spec X audio_bytes input_format w))
    as [v [w' [Hr [[[evs [Ht F]] _] _]]]].
  exists v, w', evs. split; [exact Hr|]. split; [exact Ht|].
  apply count_normalize_ffmpeg, F.
Qed.

(** C5.  The engine never raises, so neither retry branch of the
    WhatsApp audio path can run.  When the Gemini call fails on the
    repaired audio, the webhook makes exactly one engine call and then
    sends the could-not-understand apology; the original Ogg bytes are
    never sent to the engine. *)
Theorem whatsapp_audio_no_engine_retry X audio_bytes input_format text_input w :
  (exists v w', safe_gemini_conversational_audio_or_text X audio_bytes input_format text_input w
                = (Ok v, w')) /\
  whatsapp_post ext_engine_down voice_note world0 =
  (Ok wa_ack,
   mk_world [] [Ev_send_text "whatsapp:+2348012345678" wa_nothing_understood;
                Ev_normalize (Some "wav"); Ev_engine_call; Ev_ffmpeg 0] [] 1) /\
  count_engine_calls (trace (snd (whatsapp_post ext_engine_down voice_note world0))) = 1.
Proof.
  split; [|split; vm_compute; reflexivity].
  eapply wpx_never_raises, safe_gemini_spec.
Qed.

(** C6.  A successful synthesis leaves its wav and mp3 files in /tmp,
    while the audio repair step removes its own temporary files. *)
Theorem safe_tts_leaves_temp_files :
  safe_tts ext_all_ok "Bawo ni." "yo" "wa" world0 =
  (Ok (Some "https://res.cloudinary.com/a.mp3"),
   mk_world [(mk_path "/tmp/wa_" 0 "mp3", mp3_sample); (mk_path "/tmp/wa_" 0 "wav", wav_sample)]
            [] [] 1) /\
  files (snd (process_whatsapp_audio ext_all_ok ogg_sample "ogg" world0)) = [].
Proof. split; vm_compute; reflexivity. Qed.

Lemma gemini_result_empty (raw : string) :
  fst (parse_gemini_response (strip raw)) = "" -> gemini_result_of_raw raw = (None, "en").
Proof.
  unfold gemini_result_of_raw. destruct (parse_gemini_response (strip raw)) as [c l].
  simpl. intros ->. reflexivity.
Qed.

(** C7.  When the parsed reply is empty the engine result is a null reply
    with code "en"; no backend text yields the empty string as reply, and
    no run of the engine returns an empty reply. *)
Theorem conversational_empty_reply_fails raw X audio_bytes input_format text_input w :
  (fst (parse_gemini_response (strip raw)) = "" -> gemini_result_of_raw raw = (None, "en")) /\
  fst (gemini_result_of_raw raw) <> Some "" /\
  (exists v w', safe_gemini_conversational_audio_or_text X audio_bytes input_format text_input w
                = (Ok v, w') /\ fst v <> Some "").
Proof.
  split; [apply gemini_result_empty|]. split; [apply gemini_result_nonempty|].
  destruct (wpx_run _ _ _ (safe_gemini_spec X audio_bytes input_format text_input w))
    as [v [w' [Hr [_ Hv]]]].
  eauto.
Qed.

Lemma conversational_empty_reply_fails_witness :
  gemini_result_of_raw "  Language Code: yo" = (None, "en").
Proof.
  exact (proj1 (conversational_empty_reply_fails "  Language Code: yo" ext_all_ok None None None
                  world0) eq_refl).
Defined.

(** ** The REST text assistant *)

(** Outcome of [AssistantQueryView.post] on a request with query text [q]:
    when [category] and [language] are strings, a 200 answer with one log
    entry appended; when one of them is [null], [IntegrityError] and no
    row. *)
Lemma assistant_query_post_text X user req w q :
  truthy (data_get (rq_text req) None) = Some q ->
  match data_get (rq_category req) (Some "general"),
        data_get (rq_language req) (Some "en") with
  | Some category, Some language =>
      exists ai url w',
        assistant_query_post X user req w
        = (Ok (mk_rest_response 200 (RestAnswer q ai url)), w') /\
        db w' = (db w ++ [mk_log_entry user q ai category language])%list /\
        ask_gemini_reply_ok X q language ai
  | _, _ =>
      exists w', assistant_query_post X user req w = (Raise IntegrityError, w') /\
                 db w' = db w
  end.
Proof.
  intros Hq. unfold assistant_query_post. rewrite Hq.
  destruct (data_get (rq_language req) (Some "en")) as [l|];
  destruct (data_get (rq_category req) (Some "general")) as [c|];
  cbv zeta; unfold bind at 1; cbn [default];
  [pose proof (ask_gemini_spec X q l w) as H1; destruct (ask_gemini X q l w) as [[ai|e] w1] eqn:E1
  |pose proof (ask_gemini_spec X q l w) as H1; destruct (ask_gemini X q l w) as [[ai|e] w1] eqn:E1
  |pose proof (ask_gemini_spec X q "en" w) as H1; destruct (ask_gemini X q "en" w) as [[ai|e] w1] eqn:E1
  |pose proof (ask_gemini_spec X q "en" w) as H1; destruct (ask_gemini X q "en" w) as [[ai|e] w1] eqn:E1];
  unfold wpx in H1; rewrite E1 in H1; try contradiction; destruct H1 as [[_ D1] Hok];
  unfold bind at 1;
  [pose proof (safe_tts_spec X ai l "assistant" w1) as H2; destruct (safe_tts X ai l "assistant" w1) as [[url|e] w2] eqn:E2
  |pose proof (safe_tts_spec X ai l "assistant" w1) as H2; destruct (safe_tts X ai l "assistant" w1) as [[url|e] w2] eqn:E2
  |pose proof (safe_tts_nolang_spec X ai "assistant" w1) as H2; destruct (safe_tts_nolang X ai "assistant" w1) as [[url|e] w2] eqn:E2
  |pose proof (safe_tts_nolang_spec X ai "assistant" w1) as H2; destruct (safe_tts_nolang X ai "assistant" w1) as [[url|e] w2] eqn:E2];
  unfold wpx in H2; rewrite E2 in H2; try contradiction; destruct H2 as [[_ D2] _];
  unfold bind, query_history_create, db_insert, raise, ret.
  - exists ai, url. eexists. split; [reflexivity|]. split; [|exact Hok].
    simpl. rewrite D2, D1. reflexivity.
  - eexists. split; [reflexivity|]. rewrite D2, D1. reflexivity.
  - eexists. split; [reflexivity|]. rewrite D2, D1. reflexivity.
  - eexists. split; [reflexivity|]. rewrite D2, D1. reflexivity.
Qed.

(** C9 (amended).  Without query text the view answers 400 and the world,
    the log table included, is unchanged.  With query text [q], and
    [category] and [language] absent or strings, it answers 200 with the
    query, the reply and the optional audio URL, and appends exactly one
    log entry for the user with the given category (default "general")
    and language (default "en"); the reply is non-empty unless the backend
    answered with an empty or missing text in its first candidate part.
    With query text and a JSON [null] as category or language, the row
    cannot be created: the view raises [IntegrityError] (an HTTP 500) and
    adds no row. *)
Theorem assistant_query_logs_once X user req w :
  (truthy (data_get (rq_text req) None) = None ->
   assistant_query_post X user req w
   = (Ok (mk_rest_response 400 (RestError "Missing query text")), w)) /\
  (forall q, truthy (data_get (rq_text req) None) = Some q ->
   match data_get (rq_category req) (Some "general"),
         data_get (rq_language req) (Some "en") with
   | Some category, Some language =>
       exists ai url w',
         assistant_query_post X user req w
         = (Ok (mk_rest_response 200 (RestAnswer q ai url)), w') /\
         db w' = (db w ++ [mk_log_entry user q ai category language])%list /\
         ask_gemini_reply_ok X q language ai
   | _, _ =>
       exists w', assistant_query_post X user req w = (Raise IntegrityError, w') /\
                  db w' = db w
   end).
Proof.
  split; [intros Hq; unfold assistant_query_post; rewrite Hq; reflexivity|].
  exact (assistant_query_post_text X user req w).
Qed.

Lemma assistant_query_logs_once_witness :
  (exists ai url w',
    assistant_query_post ext_all_ok "alice" malaria_request world0
    = (Ok (mk_rest_response 200 (RestAnswer "What is malaria?" ai url)), w') /\
    db w' = [mk_log_entry "alice" "What is malaria?" ai "health" "en"] /\
    ask_gemini_reply_ok ext_all_ok "What is malaria?" "en" ai) /\
  (exists w',
    assistant_query_post ext_all_ok "alice" malaria_null_category world0
    = (Raise IntegrityError, w') /\ db w' = []).
Proof.
  split.
  - exact (proj2 (assistant_query_logs_once ext_all_ok "alice" malaria_request world0)
                 "What is malaria?" eq_refl).
  - exact (proj2 (assistant_query_logs_once ext_all_ok "alice" malaria_null_category world0)
                 "What is malaria?" eq_refl).
Defined.

(** C9 fails as stated: the backend answers, but its first candidate part
    carries no text; the view replies 200 with an empty [response] and
    logs it. *)
Lemma assistant_query_empty_response :
  assistant_query_post ext_empty_part "alice" malaria_request world0 =
  (Ok (mk_rest_response 200
         (RestAnswer "What is malaria?" "" (Some "https://res.cloudinary.com/a.mp3"))),
   mk_world [(mk_path "/tmp/assistant_" 0 "mp3", mp3_sample);
             (mk_path "/tmp/assistant_" 0 "wav", wav_sample)]
            [] [mk_log_entry "alice" "What is malaria?" "" "health" "en"] 1).
Proof. vm_compute. reflexivity. Qed.

(** ** Failure results of the engine *)

Lemma gemini_result_none_en raw :
  fst (gemini_result_of_raw raw) = None -> snd (gemini_result_of_raw raw) = "en".
Proof.
  unfold gemini_result_of_raw. destruct (parse_gemini_response (strip raw)) as [c l].
  destruct (truthy (Some c)); simpl; [discriminate|reflexivity].
Qed.
Lemma safe_gemini_none_en X a f t w :
  wpx (safe_gemini_conversational_audio_or_text X a f t)
      (fun v w' => ext not_send w w' /\ (fst v = None -> snd v = "en")) (fun _ _ => False) w.
Proof.
  pose proof (ext_refl not_send w) as Hx.
  unfold safe_gemini_conversational_audio_or_text, gemini_call.
  repeat step; fin; try (intros; reflexivity); try (apply gemini_result_none_en).
  call normalize_audio_spec. repeat step; fin; try (intros; reflexivity); apply gemini_result_none_en.
Qed.

(** C10 (amended).  The engine never raises, and every run that returns
    no reply returns the code "en".  Without Gemini configured it returns
    the unavailable message with "en", whatever the input.  With Gemini
    configured and neither text nor audio, it returns a null reply with
    "en". *)
Theorem conversational_failure_lang_en X audio_bytes input_format text_input w :
  (exists v w',
     safe_gemini_conversational_audio_or_text X audio_bytes input_format text_input w
     = (Ok v, w') /\ (fst v = None -> snd v = "en")) /\
  (gemini_api_key_set X && genai_installed X = false ->
   fst (safe_gemini_conversational_audio_or_text X audio_bytes input_format text_input w)
   = Ok (Some gemini_unavailable, "en")) /\
  (gemini_api_key_set X && genai_installed X = true ->
   truthy text_input = None -> truthy_bytes audio_bytes = None ->
   fst (safe_gemini_conversational_audio_or_text X audio_bytes input_format text_input w)
   = Ok (None, "en")).
Proof.
  split; [|split].
  - destruct (wpx_run _ _ _ (safe_gemini_none_en X audio_bytes input_format text_input w))
      as [v [w' [Hr [_ Hv]]]].
    eauto.
  - intros Hg. unfold safe_gemini_conversational_audio_or_text, bind, log.
    rewrite Hg. reflexivity.
  - intros Hg Ht Ha. unfold safe_gemini_conversational_audio_or_text, bind, log, try_except.
    rewrite Hg, Ht, Ha. reflexivity.
Qed.

Lemma conversational_failure_lang_en_witness :
  fst (safe_gemini_conversational_audio_or_text ext_all_ok None None None world0)
  = Ok (None, "en").
Proof.
  exact (proj2 (proj2 (conversational_failure_lang_en ext_all_ok None None None world0))
               eq_refl eq_refl eq_refl).
Defined.

(** C10 fails as stated: with no input and no [GEMINI_API_KEY], the reply
    is the unavailable message, not a null reply. *)
Lemma conversational_no_input_unconfigured :
  fst (safe_gemini_conversational_audio_or_text ext_no_gemini None None None world0)
  = Ok (Some gemini_unavailable, "en").
Proof. vm_compute. reflexivity. Qed.

(** * The rest of the code *)

(** ** Files *)

Lemma wpx_log_w e Q (R : exn -> world -> Prop) w :
  (forall w', files w' = files w -> Q tt w') -> wpx (log e) Q R w.
Proof. intros H. apply H. reflexivity. Qed.

Lemma wpx_write_w p d Q (R : exn -> world -> Prop) w :
  (forall w', files w' = (p, d) :: remove_path p (files w) -> Q tt w') -> wpx (write_file p d) Q R w.
Proof. intros H. apply H. reflexivity. Qed.

Lemma wpx_read_w p Q (R : exn -> world -> Prop) w :
  (forall d, lookup_file p (files w) = Some d -> Q d w) ->
  (lookup_file p (files w) = None -> R OSError w) -> wpx (read_file p) Q R w.
Proof. unfold wpx, read_file. destruct (lookup_file p (files w)); auto. Qed.

Lemma wpx_exists_w p Q (R : exn -> world -> Prop) w :
  Q (match lookup_file p (files w) with Some _ => true | None => false end) w ->
  wpx (file_exists p) Q R w.
Proof. auto. Qed.

Lemma wpx_nonempty_w p Q (R : exn -> world -> Prop) w :
  (forall b, (b = true -> exists d, lookup_file p (files w) = Some d /\ d <> []) -> Q b w) ->
  wpx (file_nonempty p) Q R w.
Proof.
  intros H. apply H. destruct (lookup_file p (files w)) as [[|x d]|]; try discriminate.
  intros _. exists (x :: d). split; [reflexivity|discriminate].
Qed.

Lemma wpx_unlink_w p Q (R : exn -> world -> Prop) w :
  (forall w', present p w -> files w' = remove_path p (files w) -> Q tt w') ->
  (lookup_file p (files w) = None -> R OSError w) -> wpx (unlink p) Q R w.
Proof.
  unfold wpx, unlink, present. intros H1 H2.
  destruct (lookup_file p (files w)) eqn:E; [apply H1; [congruence|reflexivity]|auto].
Qed.

Lemma untouched_same ip op w0 w w' :
  untouched ip op w0 w -> files w' = files w -> untouched ip op w0 w'.
Proof. intros H Hf q H1 H2. rewrite Hf. auto. Qed.

Lemma untouched_write ip op w0 w w' p d :
  untouched ip op w0 w -> files w' = (p, d) :: remove_path p (files w) ->
  p = ip \/ p = op -> untouched ip op w0 w'.
Proof.
  intros H Hf Hp q H1 H2. rewrite Hf, lookup_write_other by (destruct Hp; congruence). auto.
Qed.

Lemma untouched_remove ip op w0 w w' p :
  untouched ip op w0 w -> files w' = remove_path p (files w) ->
  p = ip \/ p = op -> untouched ip op w0 w'.
Proof.
  intros H Hf Hp q H1 H2. rewrite Hf, lookup_remove_other by (destruct Hp; congruence). auto.
Qed.

Lemma present_write ip w w' p d :
  present ip w -> files w' = (p, d) :: remove_path p (files w) -> present ip w'.
Proof.
  unfold present. intros H Hf. rewrite Hf.
  destruct (path_eqb p ip) eqn:E.
  - apply path_eqb_true in E. subst p. rewrite lookup_write_same. discriminate.
  - rewrite lookup_write_other; [exact H|]. intros Heq. rewrite Heq, path_eqb_refl in E. discriminate.
Qed.

Lemma absent_remove p q w w' :
  files w' = remove_path q (files w) -> (p = q \/ lookup_file p (files w) = None) ->
  lookup_file p (files w') = None.
Proof.
  intros Hf [->|Hn]; rewrite Hf; [apply lookup_remove_same|].
  destruct (path_eqb p q) eqn:E.
  - apply path_eqb_true in E. subst. apply lookup_remove_same.
  - rewrite lookup_remove_other; [exact Hn|]. intros Heq. rewrite Heq, path_eqb_refl in E. discriminate.
Qed.

Lemma ffmpeg_attempt_files X i ip op w0 w :
  untouched ip op w0 w -> present ip w ->
  wpx (ffmpeg_attempt X i ip op)
      (fun v w' => untouched ip op w0 w' /\
         match v with
         | Some d => lookup_file ip (files w') = None /\ lookup_file op (files w') = None /\ d <> []
         | None => present ip w'
         end)
      (fun _ w' => untouched ip op w0 w' /\ present ip w') w.
Proof.
  intros HU HP. unfold ffmpeg_attempt, silent.
  apply wpx_bind, wpx_log_w. intros w1 H1.
  pose proof (untouched_same _ _ _ _ _ HU H1) as HU1.
  assert (HP1 : present ip w1) by (unfold present; rewrite H1; exact HP).
  apply wpx_bind, wpx_read_w; [|intros E; unfold present in HP1; contradiction].
  intros input _. apply wpx_bind, wpx_lift. destruct (ffmpeg_run X i input) as [[rc out]|e]; [|auto].
  cbv beta iota. apply wpx_bind.
  eapply wpx_conseq with (Q := fun _ w2 => untouched ip op w0 w2 /\ present ip w2);
    [| intros _ w2 [HU2 HP2] | intros e w2 H; exact H].
  { destruct out as [o|].
    - apply wpx_write_w. intros w2 H2. split.
      + eapply untouched_write; eauto.
      + eapply present_write; eauto.
    - apply wpx_ret. auto. }
  destruct (rc =? 0)%nat; [|apply wpx_ret; auto].
  apply wpx_bind, wpx_nonempty_w. intros b Hb. destruct b; [|apply wpx_ret; auto].
  destruct (Hb eq_refl) as [d [Hd Hne]].
  apply wpx_bind, wpx_read_w; [|congruence]. intros d' Hd'.
  rewrite Hd in Hd'. injection Hd' as <-.
  apply wpx_bind, wpx_try, wpx_bind, wpx_bind, wpx_unlink_w;
    [|intros E; unfold present in HP2; contradiction].
  intros w3 _ H3. apply wpx_unlink_w.
  - intros w4 _ H4. apply wpx_ret, wpx_ret. split; [|split; [|split; [|exact Hne]]].
    + eapply untouched_remove; [eapply untouched_remove|..]; eauto.
    + eapply absent_remove; [exact H4|]. right. rewrite H3. apply lookup_remove_same.
    + rewrite H4. apply lookup_remove_same.
  - intros Hn. apply wpx_ret, wpx_ret. split; [|split; [|split; [exact Hn|exact Hne]]].
    + eapply untouched_remove; eauto.
    + rewrite H3. apply lookup_remove_same.
Qed.

Lemma ffmpeg_attempts_files X cmds ip op w0 w :
  untouched ip op w0 w -> present ip w ->
  wpx (ffmpeg_attempts X cmds ip op)
      (fun v w' => untouched ip op w0 w' /\
         match v with
         | Some d => lookup_file ip (files w') = None /\ lookup_file op (files w') = None /\ d <> []
         | None => present ip w'
         end)
      (fun _ _ => False) w.
Proof.
  revert w. induction cmds as [|i rest IH]; intros w HU HP; simpl; [apply wpx_ret; auto|].
  apply wpx_bind, wpx_try.
  eapply wpx_conseq; [apply (ffmpeg_attempt_files X i ip op w0 w HU HP)| |].
  - intros [d|] w1 [HU1 H1]; cbv beta iota; [apply wpx_ret; auto|]. apply IH; auto.
  - intros e w1 [HU1 HP1]. apply wpx_ret. apply IH; auto.
Qed.

Lemma wpx_fresh_w Q (R : exn -> world -> Prop) w :
  Q (next_id w) (mk_world (files w) (trace w) (db w) (S (next_id w))) -> wpx fresh_id Q R w.
Proof. auto. Qed.

(** [if os.path.exists(p): os.unlink(p)] *)
Lemma unlink_if_exists_files p w Q (R : exn -> world -> Prop) :
  (forall w', (forall q, q <> p -> lookup_file q (files w') = lookup_file q (files w)) ->
              lookup_file p (files w') = None -> Q tt w') ->
  wpx (if match lookup_file p (files w) with Some _ => true | None => false end
       then unlink p else ret tt) Q R w.
Proof.
  intros H. destruct (lookup_file p (files w)) eqn:E.
  - apply wpx_unlink_w; [|congruence]. intros w' _ H'. apply H.
    + intros q Hq. rewrite H'. apply lookup_remove_other, Hq.
    + rewrite H'. apply lookup_remove_same.
  - apply wpx_ret, H; auto.
Qed.

(** [WhatsAppWebhookView.process_whatsapp_audio] (views.py, lines 376-476)
    never raises and changes no file other than its input and output
    files.  When the audio is written to the temporary input file, neither
    that file nor the output file is left behind and a converted result is
    non-empty.  When that write raises, the result is [None] and the input
    file is left on disk. *)
Theorem process_whatsapp_audio_cleans_up X audio_bytes input_format w :
  let input_path := mk_path "/tmp/tmp" (next_id w) input_format in
  let output_path := with_ext input_path "wav" in
  exists v w',
    process_whatsapp_audio X audio_bytes input_format w = (Ok v, w') /\
    (forall q, q <> input_path -> q <> output_path ->
               lookup_file q (files w') = lookup_file q (files w)) /\
    match tmp_write X audio_bytes with
    | Ok _ =>
        lookup_file input_path (files w') = None /\
        lookup_file output_path (files w') = None /\
        (forall d, v = Some d -> d <> [])
    | Raise _ => v = None /\ lookup_file input_path (files w') <> None
    end.
Proof.
  intros ip op. unfold process_whatsapp_audio.
  destruct (tmp_write X audio_bytes) as [u|e] eqn:Ew.
  2:{ do 2 eexists. split; [reflexivity|]. cbn [files].
      split; [|split; [reflexivity|]].
      - intros q Hq _. rewrite lookup_write_other by exact Hq. reflexivity.
      - rewrite lookup_write_same. discriminate. }
  apply wpx_run with (Q := fun v w' =>
    untouched ip op w w' /\
    (lookup_file ip (files w') = None /\ lookup_file op (files w') = None /\
     (forall d, v = Some d -> d <> []))).
  apply wpx_bind, wpx_fresh_w. cbv beta zeta.
  apply wpx_bind, wpx_write_w. intros w0 H0. cbv beta iota.
  apply wpx_bind, wpx_write_w. intros w1 H1.
  assert (HU0 : untouched ip op w w0) by (eapply untouched_write; [intros q _ _; reflexivity|exact H0|left; reflexivity]).
  assert (HU1 : untouched ip op w w1) by (eapply untouched_write; [exact HU0|exact H1|left; reflexivity]).
  assert (HP1 : present ip w1) by (unfold present; rewrite H1, lookup_write_same; discriminate).
  apply wpx_try, wpx_bind.
  eapply wpx_conseq; [apply (ffmpeg_attempts_files X ffmpeg_commands ip op w w1 HU1 HP1)| |intros ? ? []].
  intros [d|] w2 [HU2 H2]; cbv beta iota.
  - destruct H2 as [Ha [Hb Hne]]. apply wpx_ret. split; [exact HU2|]. split; [exact Ha|]. split; [exact Hb|].
    intros d' Hd. injection Hd as <-. exact Hne.
  - apply wpx_bind, wpx_raise. unfold silent. apply wpx_bind, wpx_try, wpx_bind.
    apply wpx_bind, wpx_exists_w. apply wpx_bind, unlink_if_exists_files. intros w3 F3 A3.
    apply wpx_bind, wpx_exists_w. apply unlink_if_exists_files. intros w4 F4 A4.
    apply wpx_ret, wpx_ret. split; [|split; [|split; [exact A4|]]].
    + intros q Hq1 Hq2. rewrite F4, F3 by assumption. apply HU2; assumption.
    + destruct (path_eqb ip op) eqn:E.
      * apply path_eqb_true in E. rewrite E. exact A4.
      * rewrite F4; [exact A3|]. intros Heq. rewrite Heq, path_eqb_refl in E. discriminate.
    + intros d' Hd. discriminate.
Qed.

(** ** The reply parse *)

Lemma str_app_assoc (a b c : string) : ((a ++ b) ++ c)%string = (a ++ b ++ c)%string.
Proof. induction a as [|x a IH]; simpl; congruence. Qed.

Lemma rstrip_length s : String.length (rstrip s) <= String.length s.
Proof.
  induction s as [|c s IH]; simpl; [lia|].
  destruct (is_py_space c && (rstrip s =? "")); simpl; lia.
Qed.

Lemma lstrip_length s : String.length (lstrip s) <= String.length s.
Proof. induction s as [|c s IH]; simpl; [lia|]. destruct (is_py_space c); simpl; lia. Qed.

Lemma strip_fixed_lstrip s : strip s = s -> lstrip s = s.
Proof.
  unfold strip. destruct s as [|c s]; [reflexivity|]. simpl. intros H.
  destruct (is_py_space c); [|reflexivity].
  exfalso. pose proof (rstrip_length (lstrip s)). pose proof (lstrip_length s).
  rewrite H in *. simpl in *. lia.
Qed.

Lemma lstrip_app_fixed s t : s <> "" -> lstrip s = s -> lstrip (s ++ t) = (s ++ t)%string.
Proof.
  destruct s as [|c s]; [congruence|]. simpl. intros _.
  destruct (is_py_space c) eqn:E; [|reflexivity].
  intros H. exfalso. pose proof (lstrip_length s). rewrite H in *. simpl in *. lia.
Qed.

Lemma rstrip_app_fixed s t : t <> "" -> rstrip t = t -> rstrip (s ++ t) = (s ++ t)%string.
Proof.
  intros Hn Ht. induction s as [|c s IH]; [exact Ht|]. simpl. rewrite IH.
  destruct (s ++ t)%string eqn:E; [destruct s; simpl in E; subst; congruence|].
  rewrite andb_false_r. reflexivity.
Qed.

Lemma rstrip_app_space s : rstrip (s ++ " ") = rstrip s.
Proof. induction s as [|c s IH]; [reflexivity|]. simpl. rewrite IH. reflexivity. Qed.

(** The parse of [safe_gemini_conversational_audio_or_text] (utils.py,
    lines 234-259) inverts the format the prompt asks for: a non-empty,
    already stripped reply followed by [" Language Code: "] and a supported
    code is read back as that reply and that code, whatever the reply
    contains. *)
Theorem gemini_reply_round_trip (reply code : string) :
  reply <> "" -> strip reply = reply -> In code supported_codes ->
  gemini_result_of_raw (reply ++ " " ++ lang_code_prefix ++ " " ++ code) = (Some reply, code).
Proof.
  intros Hn Hs Hc.
  assert (Hl : lstrip reply = reply) by (apply strip_fixed_lstrip, Hs).
  assert (Hr : rstrip reply = reply) by (unfold strip in Hs; rewrite Hl in Hs; exact Hs).
  assert (Hcode : rstrip (" " ++ code) = (" " ++ code)%string /\
                  str_in lang_code_prefix (" " ++ code) = false /\
                  select_code (lower (strip (" " ++ code))) = code)
    by (simpl in Hc; destruct Hc as [<-|[<-|[<-|[<-|[]]]]]; repeat split; reflexivity).
  destruct Hcode as [Hc1 [Hc2 Hc3]].
  assert (Hfull : strip (reply ++ " " ++ lang_code_prefix ++ " " ++ code)
                  = ((reply ++ " ") ++ lang_code_prefix ++ " " ++ code)%string).
  { assert (Ht : rstrip (" " ++ lang_code_prefix ++ " " ++ code)
                 = (" " ++ lang_code_prefix ++ " " ++ code)%string)
      by exact (rstrip_app_fixed (" " ++ lang_code_prefix) (" " ++ code) ltac:(discriminate) Hc1).
    unfold strip. rewrite lstrip_app_fixed by assumption.
    rewrite rstrip_app_fixed by (try exact Ht; discriminate).
    rewrite str_app_assoc. reflexivity. }
  unfold gemini_result_of_raw. rewrite Hfull. unfold parse_gemini_response.
  rewrite str_in_marker_app, rsplit1_last_marker by exact Hc2. cbn [nth].
  unfold strip at 1. rewrite lstrip_app_fixed, rstrip_app_space, Hr by assumption.
  rewrite Hc3, truthy_nonempty by exact Hn. reflexivity.
Qed.

Lemma gemini_reply_round_trip_witness :
  gemini_result_of_raw ("Na Language Code: yo ni" ++ " " ++ lang_code_prefix ++ " " ++ "ha")
  = (Some "Na Language Code: yo ni", "ha").
Proof.
  apply gemini_reply_round_trip; [discriminate | reflexivity | simpl; tauto].
Defined.

(** ** The other views, [safe_stt] and the helpers *)

(** [AssistantQueryView.post] followed by [QueryHistoryList.get_queryset]:
    a query with text, whose category and language are not [null], adds
    exactly one row, holding the query and the answer, to the history of
    the user who asked, and leaves the history of every other user as it
    was.  The queryset has no [order_by], so the rows are compared up to
    their order. *)
Theorem assistant_query_history X user req w q category language :
  truthy (data_get (rq_text req) None) = Some q ->
  data_get (rq_category req) (Some "general") = Some category ->
  data_get (rq_language req) (Some "en") = Some language ->
  exists ai url w',
    assistant_query_post X user req w
    = (Ok (mk_rest_response 200 (RestAnswer q ai url)), w') /\
    forall u, Permutation (query_history_list u (db w'))
                ((if u =? user then [mk_log_entry user q ai category language] else [])
                 ++ query_history_list u (db w))%list.
Proof.
  intros Hq Hc Hl. pose proof (assistant_query_post_text X user req w q Hq) as H.
  rewrite Hc, Hl in H. destruct H as (ai & url & w' & Hpost & Hdb & _).
  exists ai, url, w'. split; [exact Hpost|]. intros u.
  rewrite Hdb. unfold query_history_list. rewrite filter_app.
  eapply Permutation_trans; [apply Permutation_app_comm|]. apply Permutation_app_tail.
  simpl. rewrite (String.eqb_sym user u). destruct (u =? user); apply Permutation_refl.
Qed.

Lemma assistant_query_history_witness :
  exists ai url w',
    assistant_query_post ext_all_ok "alice" malaria_request (mk_world [] [] [mk_log_entry "bob" "Hi" "Hello" "general" "en"] 0)
    = (Ok (mk_rest_response 200 (RestAnswer "What is malaria?" ai url)), w') /\
    forall u, Permutation (query_history_list u (db w'))
                ((if u =? "alice" then [mk_log_entry "alice" "What is malaria?" ai "health" "en"] else [])
                 ++ query_history_list u [mk_log_entry "bob" "Hi" "Hello" "general" "en"])%list.
Proof.
  exact (assistant_query_history ext_all_ok "alice" malaria_request _ "What is malaria?" "health" "en"
           eq_refl eq_refl eq_refl).
Defined.

Lemma in_insert_newest x l qs : In x (insert_newest l qs) <-> x = l \/ In x qs.
Proof.
  induction qs as [|m qs IH]; simpl; [intuition congruence|].
  destruct (Nat.leb _ _); simpl; [|rewrite IH]; intuition congruence.
Qed.

Lemma in_order_by_newest x rows : In x (order_by_newest rows) <-> In x rows.
Proof.
  induction rows as [|l rows IH]; simpl; [tauto|]. rewrite in_insert_newest, IH.
  split; intros [H|H]; auto.
Qed.

Lemma sorted_insert_newest l qs :
  Sorted newer qs -> Sorted newer (insert_newest l qs).
Proof.
  induction qs as [|m qs IH]; simpl; intros Hs.
  - repeat constructor.
  - destruct (Nat.leb (ls_created_at m) (ls_created_at l)) eqn:E.
    + apply Nat.leb_le in E. constructor; [exact Hs|constructor; exact E].
    + apply Nat.leb_gt in E. inversion Hs as [|? ? Hs' Hd]; subst.
      constructor; [apply IH, Hs'|].
      destruct qs as [|m' qs']; simpl.
      * constructor. unfold newer. lia.
      * destruct (Nat.leb (ls_created_at m') (ls_created_at l)); constructor; unfold newer.
        -- lia.
        -- inversion Hd; assumption.
Qed.

Lemma sorted_order_by_newest rows : Sorted newer (order_by_newest rows).
Proof. induction rows; simpl; [constructor|]. apply sorted_insert_newest; assumption. Qed.

Lemma newer_trans a b c : newer a b -> newer b c -> newer a c.
Proof. unfold newer. lia. Qed.

Lemma strongly_sorted_filter f (l : list lesson) :
  StronglySorted newer l -> StronglySorted newer (filter f l).
Proof.
  induction l as [|a l IH]; simpl; intros Hs; [constructor|].
  inversion Hs; subst. destruct (f a); [|auto].
  constructor; [auto|]. apply Forall_forall. intros x Hx.
  apply filter_In in Hx. eapply Forall_forall; [eassumption|]. apply Hx.
Qed.

Lemma sorted_filter f (l : list lesson) : Sorted newer l -> Sorted newer (filter f l).
Proof.
  intros Hs. apply StronglySorted_Sorted, strongly_sorted_filter.
  apply Sorted_StronglySorted; [exact newer_trans|exact Hs].
Qed.

(** [LessonContentView.get_queryset] lists lessons newest first, whatever
    filters apply. *)
Theorem lesson_queryset_newest_first params rows :
  Sorted (fun a b => ls_created_at b <= ls_created_at a) (lesson_queryset params rows).
Proof.
  change (Sorted newer (lesson_queryset params rows)). unfold lesson_queryset.
  pose proof (sorted_order_by_newest rows) as H.
  destruct (truthy (lp_language params)) as [lang|]; [destruct (lang =? "all")|];
  destruct (truthy (lp_category params)) as [c|]; try destruct (c =? "all");
  destruct (truthy (lp_search params)) as [s|];
  repeat apply sorted_filter; assumption.
Qed.

(** [LessonContentView.get_queryset] lists exactly the stored lessons that
    match every given filter: the language and the category unless the
    value is empty or ["all"], and the search term, case-insensitively, in
    the title or the body. *)
Theorem lesson_queryset_members params rows l :
  In l (lesson_queryset params rows) <->
  In l rows /\
  (forall lang, truthy (lp_language params) = Some lang -> lang <> "all" -> ls_language l = lang) /\
  (forall c, truthy (lp_category params) = Some c -> c <> "all" -> ls_category l = c) /\
  (forall s, truthy (lp_search params) = Some s ->
             icontains (ls_title l) s = true \/ icontains (ls_body l) s = true).
Proof.
  unfold lesson_queryset. rewrite <- (in_order_by_newest l rows).
  generalize (order_by_newest rows) as qs. intros qs.
  destruct (truthy (lp_language params)) as [lang|];
  [destruct (String.eqb_spec lang "all") as [El|El]|];
  destruct (truthy (lp_category params)) as [c|];
  try destruct (String.eqb_spec c "all") as [Ec|Ec];
  destruct (truthy (lp_search params)) as [s|];
  rewrite ?filter_In, ?orb_true_iff, ?String.eqb_eq;
  split;
  repeat match goal with
         | |- _ -> _ => intros
         | H : _ /\ _ |- _ => destruct H
         | H : Some _ = Some _ |- _ => injection H as <-
         | H : None = Some _ |- _ => discriminate H
         | H : forall _, Some ?x = Some _ -> _ |- _ => specialize (H x eq_refl)
         | H : forall _, None = Some _ -> _ |- _ => clear H
         | |- _ /\ _ => split
         end; subst; try tauto; try congruence.
Qed.

(** The address normalisation of [send_whatsapp_message] always yields a
    ["whatsapp:"] address and leaves one that already has the prefix
    unchanged. *)
Theorem wa_addr_normal n :
  prefix "whatsapp:" (wa_addr n) = true /\ wa_addr (wa_addr n) = wa_addr n.
Proof.
  unfold wa_addr. destruct (prefix "whatsapp:" n) eqn:E.
  - rewrite E. auto.
  - simpl. assert (Hp : prefix "" n = true) by (destruct n; reflexivity).
    rewrite Hp. auto.
Qed.

(** [send_whatsapp_message] returns a message id exactly when the Twilio
    credentials and sender number are set and Twilio accepted a text
    message from and to the normalised WhatsApp addresses; that id is
    Twilio's. *)
Theorem send_whatsapp_message_sid X to body w sid :
  fst (send_whatsapp_message X to body w) = Ok (Some sid) <->
  twilio_creds_set X = true /\
  exists n, twilio_number X = Some n /\
            twilio_create X (wa_addr n) (wa_addr to) body None = Ok sid.
Proof.
  unfold send_whatsapp_message, bind, log, try_except, lift, ret, raise. simpl.
  destruct (twilio_creds_set X); simpl.
  - destruct (twilio_number X) as [n|]; simpl.
    + destruct (twilio_create X _ _ _ _) as [s|e] eqn:E; simpl.
      * split; [intros H; injection H as <-; eauto|].
        intros [_ [n' [Hn Hc]]]. injection Hn as <-. rewrite E in Hc. congruence.
      * split; [discriminate|]. intros [_ [n' [Hn Hc]]]. injection Hn as <-. congruence.
    + split; [discriminate|]. intros [_ [n' [Hn _]]]. discriminate.
  - split; [discriminate|]. intros [H _]. discriminate.
Qed.

(** [WhatsAppWebhookView.post] treats a message whose media is not audio, or
    whose audio has no URL, exactly like the same message without media:
    it never downloads such media. *)
Theorem whatsapp_non_audio_as_text X req :
  match truthy (wa_media_content_type req) with
  | Some media_type => prefix "audio" media_type = false \/ truthy (wa_media_url req) = None
  | None => True
  end ->
  whatsapp_post X req = whatsapp_post X (mk_wa_request None None (wa_body req) (wa_from req)).
Proof.
  intros H. unfold whatsapp_post. cbn [wa_media_content_type wa_body wa_from truthy].
  destruct (truthy (wa_media_content_type req)) as [mt|]; [|reflexivity].
  destruct (prefix "audio" mt) eqn:E; [|reflexivity].
  destruct H as [H|H]; [discriminate|].
  destruct (wa_media_url req) as [u|]; [|reflexivity]. rewrite H. reflexivity.
Qed.

Lemma whatsapp_non_audio_as_text_witness :
  whatsapp_post ext_all_ok
    (mk_wa_request (Some "image/jpeg") (Some "https://api.twilio.com/m/1") (Some "Hello") (Some "whatsapp:+2348012345678"))
  = whatsapp_post ext_all_ok
    (mk_wa_request None None (Some "Hello") (Some "whatsapp:+2348012345678")).
Proof.
  exact (whatsapp_non_audio_as_text ext_all_ok
    (mk_wa_request (Some "image/jpeg") (Some "https://api.twilio.com/m/1") (Some "Hello") (Some "whatsapp:+2348012345678"))
    (or_introl eq_refl)).
Defined.

(** [ask_gemini] treats every language code other than ["yo"], ["ig"],
    ["ha"] and ["undefined"] as English. *)
Theorem ask_gemini_other_lang_english X prompt lang :
  lang <> "yo" -> lang <> "ig" -> lang <> "ha" -> lang <> "undefined" ->
  ask_gemini X prompt lang = ask_gemini X prompt "en".
Proof.
  intros H1 H2 H3 H4. unfold ask_gemini, language_name.
  apply String.eqb_neq in H1, H2, H3, H4. rewrite H1, H2, H3, H4. reflexivity.
Qed.

Lemma ask_gemini_other_lang_english_witness :
  ask_gemini ext_all_ok "Bonjour" "fr" = ask_gemini ext_all_ok "Bonjour" "en".
Proof.
  apply ask_gemini_other_lang_english; discriminate.
Defined.

Lemma safe_stt_spec X S a l w :
  wpx (safe_stt X S a l) (fun _ w' => ext not_send w w' /\ True) (fun _ _ => False) w.
Proof.
  pose proof (ext_refl not_send w) as Hx. unfold safe_stt.
  repeat step; fin. call normalize_audio_spec. repeat step; fin.
Qed.

Lemma upload_to_cloudinary_stream_spec X d w :
  wpx (upload_to_cloudinary_stream X d) (fun _ w' => ext not_send w w' /\ True)
      (fun _ _ => False) w.
Proof.
  pose proof (ext_refl not_send w) as Hx. unfold upload_to_cloudinary_stream.
  repeat step; fin.
Qed.

(** [safe_stt] never raises and only records its normalisation call.  It
    returns a text exactly when normalisation gave non-empty audio, Spitch
    transcribed it and, for a language other than ["en"], translated the
    transcript to English; the text is then the transcript for ["en"] and
    the translation otherwise. *)
Theorem safe_stt_outcome X S audio_bytes language w :
  exists v,
    safe_stt X S audio_bytes language w
    = (Ok v, mk_world (files w) (Ev_normalize (Some "webm") :: trace w) (db w) (next_id w)) /\
    forall s, v = Some s <->
      exists a t, pydub_to_wav X audio_bytes (Some "webm") = Ok a /\ a <> [] /\
        spitch_transcribe S language a = Ok t /\
        (language = "en" /\ s = t \/
         language <> "en" /\ spitch_translate S t language "en" = Ok s).
Proof.
  unfold safe_stt, normalize_audio, try_except, bind, log, lift, ret. simpl.
  destruct (pydub_to_wav X audio_bytes (Some "webm")) as [a|e] eqn:Ea; simpl.
  2:{ eexists; split; [reflexivity|]. intros s; split; [discriminate|].
      intros (a & t & H & _). discriminate. }
  destruct a as [|b a'] eqn:Eb; simpl.
  { eexists; split; [reflexivity|]. intros s; split; [discriminate|].
    intros (a0 & t & H & Hn & _). injection H as <-. contradiction. }
  rewrite <- Eb.
  destruct (spitch_transcribe S language a) as [t|e] eqn:Et; simpl.
  2:{ eexists; split; [reflexivity|]. intros s; split; [discriminate|].
      intros (a0 & t & H & _ & Ht & _). injection H as <-. congruence. }
  destruct (String.eqb_spec language "en") as [El|El]; simpl.
  - eexists; split; [reflexivity|]. intros s; split.
    + intros H; injection H as <-. exists a, t. subst a. repeat split; try discriminate; auto.
    + intros (a0 & t0 & H & _ & Ht & [[_ Hs]|[Hn _]]); [|contradiction].
      injection H as <-. congruence.
  - destruct (spitch_translate S t language "en") as [u|e] eqn:Eu; simpl.
    + eexists; split; [reflexivity|]. intros s; split.
      * intros H; injection H as <-. exists a, t. subst a. repeat split; try discriminate; auto.
      * intros (a0 & t0 & H & _ & Ht & [[He _]|[_ Hs]]); [contradiction|].
        injection H as <-. rewrite Et in Ht. injection Ht as <-. congruence.
    + eexists; split; [reflexivity|]. intros s; split; [discriminate|].
      intros (a0 & t0 & H & _ & Ht & [[He _]|[_ Hs]]); [contradiction|].
      injection H as <-. rewrite Et in Ht. injection Ht as <-. congruence.
Qed.

(** [VoiceUploadView.post] never raises, sends no WhatsApp message and
    writes no history row.  Without a file it answers 400 and changes
    nothing; when speech-to-text yields no text it answers 500; otherwise
    it answers 200 with the transcript as the query. *)
Theorem voice_upload_post_outcome X S file language w :
  exists r w',
    voice_upload_post X S file language w = (Ok r, w') /\ ext not_send w w' /\
    match file with
    | None => r = mk_voice_response 400 (VoiceError "No audio provided") /\ w' = w
    | Some audio_bytes =>
        exists v w1, safe_stt X S audio_bytes (default "en" language) w = (Ok v, w1) /\
        match truthy v with
        | None => r = mk_voice_response 500 (VoiceError "STT failed") /\ w' = w1
        | Some t => exists ai audio_url uploaded,
            r = mk_voice_response 200 (VoiceAnswer t ai audio_url uploaded) /\
            ask_gemini_reply_ok X t (default "en" language) ai
        end
    end.
Proof.
  unfold voice_upload_post. cbv zeta. destruct file as [audio_bytes|].
  2:{ do 2 eexists. split; [reflexivity|]. split; [apply ext_refl|auto]. }
  unfold bind at 1.
  pose proof (safe_stt_spec X S audio_bytes (default "en" language) w) as H1. unfold wpx in H1.
  destruct (safe_stt X S audio_bytes (default "en" language) w) as [[v|e] w1]; [|contradiction].
  destruct H1 as [X1 _].
  destruct (truthy v) as [t|] eqn:Et.
  2:{ do 2 eexists. split; [reflexivity|]. split; [exact X1|]. do 2 eexists.
      split; [reflexivity|]. rewrite Et. auto. }
  unfold bind.
  pose proof (ask_gemini_spec X t (default "en" language) w1) as H2. unfold wpx in H2.
  destruct (ask_gemini X t (default "en" language) w1) as [[ai|e] w2]; [|contradiction].
  destruct H2 as [X2 Hok].
  pose proof (safe_tts_spec X ai (default "en" language) "voice" w2) as H3. unfold wpx in H3.
  destruct (safe_tts X ai (default "en" language) "voice" w2) as [[au|e] w3]; [|contradiction].
  destruct H3 as [X3 _].
  pose proof (upload_to_cloudinary_stream_spec X audio_bytes w3) as H4. unfold wpx in H4.
  destruct (upload_to_cloudinary_stream X audio_bytes w3) as [[uu|e] w4]; [|contradiction].
  destruct H4 as [X4 _].
  do 2 eexists. split; [reflexivity|].
  split; [eapply ext_trans; [eapply ext_trans; [eapply ext_trans|]|]; eassumption|].
  do 2 eexists. split; [reflexivity|]. rewrite Et. do 3 eexists. split; [reflexivity|exact Hok].
Qed.

Ltac upload_cases :=
  repeat match goal with
         | |- _ /\ _ => split
         | |- _ <-> _ => split
         | |- forall _, _ => intro
         | H : _ /\ _ |- _ => destruct H
         | H : exists _, _ |- _ => destruct H
         | H : Some _ = Some _ |- _ => injection H as H
         | H : Ok _ = Ok _ |- _ => injection H as H
         | H : Raise _ = Raise _ |- _ => injection H as H
         end; subst; try reflexivity; try discriminate; try congruence.

(** [upload_to_cloudinary] on a path changes nothing.  It raises only when
    the credentials are set and the file does not exist (the file is
    opened outside the [try]), and then raises [OSError].  It returns a
    URL exactly when the credentials are set, the file exists, and the
    upload of its content returned status 200 with that [secure_url]. *)
Theorem upload_to_cloudinary_outcome X p w :
  snd (upload_to_cloudinary X p w) = w /\
  (forall e, fst (upload_to_cloudinary X p w) = Raise e <->
     e = OSError /\ cloudinary_creds_set X = true /\ lookup_file p (files w) = None) /\
  (forall u, fst (upload_to_cloudinary X p w) = Ok (Some u) <->
     cloudinary_creds_set X = true /\
     exists d r, lookup_file p (files w) = Some d /\ cloudinary_post X d = Ok r /\
                 cr_status r = 200 /\ cr_secure_url r = Ok (Some u)).
Proof.
  unfold upload_to_cloudinary, try_except, bind, read_file, lift, ret. simpl.
  destruct (cloudinary_creds_set X) eqn:Ec; simpl; [|upload_cases].
  destruct (lookup_file p (files w)) as [d|] eqn:Ef; simpl; [|upload_cases].
  destruct (cloudinary_post X d) as [r|e] eqn:Ep; simpl; [|upload_cases].
  destruct (Nat.eqb_spec (cr_status r) 200) as [Es|Es]; simpl; [|upload_cases].
  destruct (cr_secure_url r) as [o|e] eqn:Eu; simpl; upload_cases.
  exists d, r. auto.
Qed.

(** When the configured backend answers with an empty [candidates] list,
    [ask_gemini] returns its failure apology (the [IndexError] is caught);
    when the answer has no [candidates] key, it returns the empty string. *)
Theorem ask_gemini_malformed_response X prompt lang resp w :
  gemini_api_key_set X = true -> genai_installed X = true ->
  (forall instr, gemini_rest X instr prompt = Ok resp) ->
  (gr_candidates resp = Some [] -> ask_gemini X prompt lang w = (Ok ask_failed, w)) /\
  (gr_candidates resp = None -> ask_gemini X prompt lang w = (Ok "", w)).
Proof.
  intros Hk Hg Hr. unfold ask_gemini. rewrite Hk, Hg. simpl.
  unfold try_except, bind, lift, ret. rewrite Hr. unfold extract_text.
  split; intros Hc; rewrite Hc; reflexivity.
Qed.

Lemma ask_gemini_malformed_response_witness :
  ask_gemini ext_no_candidates "What is malaria?" "yo" world0 = (Ok ask_failed, world0).
Proof.
  apply (proj1 (ask_gemini_malformed_response ext_no_candidates "What is malaria?" "yo"
                  (mk_gen_response (Some [])) world0 eq_refl eq_refl (fun _ => eq_refl))).
  reflexivity.
Defined.

(** A URL returned by [safe_tts] is the [secure_url] of a successful upload
    of the MP3 transcode of exactly the audio Spitch synthesised with the
    language's voice: the round trip through the temporary wav and mp3
    files loses nothing. *)
Theorem safe_tts_uploads_synthesis X text language prefix w url :
  fst (safe_tts X text language prefix w) = Ok (Some url) ->
  exists content mp3 r,
    spitch_generate X text language (voice_map language) = Ok (Ok content) /\
    wav_to_mp3 X content = Ok mp3 /\
    cloudinary_post X mp3 = Ok r /\ cr_status r = 200 /\ cr_secure_url r = Ok (Some url).
Proof.
  unfold safe_tts, upload_to_cloudinary, try_except, bind, lift, ret, fresh_id, write_file, read_file.
  cbn -[lookup_file remove_path].
  destruct (spitch_generate X text language (voice_map language)) as [[content|e0]|e0] eqn:Eg;
    cbn -[lookup_file remove_path]; try discriminate.
  rewrite lookup_write_same. cbn -[lookup_file remove_path].
  destruct (wav_to_mp3 X content) as [mp3|e1] eqn:Em; cbn -[lookup_file remove_path]; try discriminate.
  destruct (cloudinary_creds_set X); cbn -[lookup_file remove_path]; try discriminate.
  rewrite lookup_write_same. cbn -[lookup_file remove_path].
  destruct (cloudinary_post X mp3) as [r|e2] eqn:Ep; cbn; try discriminate.
  destruct (Nat.eqb_spec (cr_status r) 200); cbn; try discriminate.
  destruct (cr_secure_url r) as [o|e3] eqn:Eu; cbn; try discriminate.
  destruct o as [u|]; cbn; [|discriminate].
  intros H; injection H as ->. exists content, mp3, r. auto.
Qed.

Lemma safe_tts_uploads_synthesis_witness :
  exists content mp3 r,
    spitch_generate ext_all_ok "Malaria is a disease." "en" (voice_map "en") = Ok (Ok content) /\
    wav_to_mp3 ext_all_ok content = Ok mp3 /\
    cloudinary_post ext_all_ok mp3 = Ok r /\ cr_status r = 200 /\
    cr_secure_url r = Ok (Some "https://res.cloudinary.com/a.mp3").
Proof.
  apply (safe_tts_uploads_synthesis ext_all_ok "Malaria is a disease." "en" "assistant" world0).
  vm_compute. reflexivity.
Defined.
